(** * The in-sandbox workflow runtime of the Node SDK, embedded in Rocq

    Sources embedded here:
    - [packages/workflow/src/internals.ts]: the engine state, the activator,
      [activate], [concludeActivation], [resolveExternalDependencies], the
      completion table, the scope stack and [propagateCancellation];
    - the module that installs the deterministic globals and initialises the
      workflow: [setTimeout] and [clearTimeout] of [overrideGlobals],
      [initWorkflow] and its promise hook.

    The engine is a JavaScript singleton mutated in place.  It is embedded by
    explicit state passing: every engine function is a function from the
    engine state to an outcome, which is a normal return, a thrown value, or
    exhaustion of the fuel that bounds re-entrant closure calls.  Closures
    that the sources build are data, run by an interpreter; closures, helpers
    and built-ins that come from elsewhere are the fields of a [Host].
    Promise chains are resumptions that the host's microtask loop drives.

    Not embedded: [childScope] (it builds closures around the host's
    [Promise] constructor) and the weak-reference and [Math.random] shims.  Of
    [inject], the registration and the bodies of the functions it installs are
    embedded; the [Promise] that wraps the [ASYNC] body is the host's. *)

From stdpp Require Import gmap strings list pretty.

Set Default Proof Using "Type".
Open Scope Z_scope.

(** ** JavaScript values *)

(** Numbers that reach the engine are sequence numbers and timer handles:
    integers, and [NaN] as produced by [parseInt] on a string with no digits. *)
Inductive Num := NaN | Int (z : Z).

(** *** Numbers as strings *)

(** A Number holds 53 significant bits.  The Number that an integer beyond
    [2^53] denotes is the nearest one, ties going to the even significand;
    from [2^1024 - 2^970] on it is [Infinity], here [None]. *)
Definition round_to_Number (a : Z) : option Z :=
  let e := Z.log2 a - 52 in
  if e <=? 0 then Some a
  else
    let q := Z.shiftr a e in
    let r := a - Z.shiftl q e in
    let half := 2 ^ (e - 1) in
    let q' := if r <? half then q
              else if half <? r then q + 1
              else if Z.even q then q else q + 1 in
    let x := Z.shiftl q' e in
    if x <? 2 ^ 1024 then Some x else None.

Definition decimal_digits (a : Z) : Z := Z.of_nat (String.length (pretty a)).

(** The multiples of [10^m] next to [x] that denote the Number [x]; of two,
    the nearer one. *)
Definition nearby_multiple (x m : Z) : option Z :=
  let p := 10 ^ m in
  let lo := x / p * p in
  let hi := lo + p in
  match bool_decide (round_to_Number lo = Some x), bool_decide (round_to_Number hi = Some x) with
  | true, true => Some (if x - lo <=? hi - x then lo else hi)
  | true, false => Some lo
  | false, true => Some hi
  | false, false => None
  end.

(** The decimal with the fewest significant digits that denotes the Number
    [x]: one digit is tried first, then two, and so on; seventeen always
    suffice. *)
Fixpoint shortest_decimal_from (digits : nat) (x m : Z) : Z :=
  match digits with
  | O => x
  | S digits =>
      if m <? 0 then x
      else match nearby_multiple x m with
           | Some c => c
           | None => shortest_decimal_from digits x (m - 1)
           end
  end.

Definition shortest_decimal (x : Z) : Z :=
  shortest_decimal_from 17 x (decimal_digits x - 1).

Fixpoint strip_trailing_zeros (fuel : nat) (c : Z) : Z :=
  match fuel with
  | O => c
  | S fuel => if (0 <? c) && (c mod 10 =? 0) then strip_trailing_zeros fuel (c / 10) else c
  end.

(** [Number::toString] for a positive integer: up to [2^53] every integer is
    a Number and prints as its decimal digits; beyond, the shortest decimal
    that denotes the Number is printed, with zeros filled in below [10^21] and
    in exponent notation from there on. *)
Definition positive_to_string (a : Z) : string :=
  if a <=? 2 ^ 53 then pretty a
  else
    match round_to_Number a with
    | None => "Infinity"
    | Some x =>
        let c := shortest_decimal x in
        if c <? 10 ^ 21 then pretty c
        else
          match pretty (strip_trailing_zeros (String.length (pretty c)) c) with
          | String d rest =>
              String d (match rest with
                        | EmptyString => EmptyString
                        | _ => "." +:+ rest
                        end)
              +:+ "e+" +:+ pretty (decimal_digits c - 1)
          | EmptyString => EmptyString
          end
    end.

(** The template literal [`${n}`]. *)
Definition num_to_string (n : Num) : string :=
  match n with
  | NaN => "NaN"
  | Int z => if z <? 0 then "-" +:+ positive_to_string (- z) else positive_to_string z
  end.

Inductive CancellationSource := Internal | External.

(** The error classes of [errors.ts] together with the built-in ones the
    engine throws.  [instanceof] is a test on this tag. *)
Inductive ErrorClass :=
| ErrorC
| TypeErrorC
| IllegalStateErrorC
| DeterminismViolationErrorC
| CancellationErrorC (source : CancellationSource).

(** An error object.  [err_oid] is the identity of the object: [e !== err]
    compares references, not contents. *)
Record JsError := MkError {
  err_class : ErrorClass;
  err_message : string;
  err_oid : nat;
}.

Inductive Val :=
| VUndefined
| VNull
| VBool (b : bool)
| VNum (n : Num)
| VStr (s : string)
| VErr (e : JsError).

Definition num_eqb (a b : Num) : bool :=
  match a, b with
  | Int x, Int y => bool_decide (x = y)
  | _, _ => false
  end.

(** [a === b]: primitives by value ([NaN] differs from itself), objects by
    identity. *)
Definition strict_eq (a b : Val) : bool :=
  match a, b with
  | VUndefined, VUndefined => true
  | VNull, VNull => true
  | VBool x, VBool y => bool_decide (x = y)
  | VNum x, VNum y => num_eqb x y
  | VStr x, VStr y => bool_decide (x = y)
  | VErr x, VErr y => bool_decide (err_oid x = err_oid y)
  | _, _ => false
  end.

Definition instanceof_CancellationError (v : Val) : bool :=
  match v with
  | VErr {| err_class := CancellationErrorC _ |} => true
  | _ => false
  end.

(** ** Wire messages (the fields the engine reads or writes) *)

Record Payload := MkPayload {
  metadata : list (string * string);
  data : string;
}.

Record Timestamp := MkTimestamp { seconds : Z; nanos : Z }.

Record Failure := MkFailure { failure_message : option string }.

Inductive QueryResult :=
| Succeeded (response : Payload)
| FailedWithMessage (message : option string).

Inductive WorkflowCommand :=
| StartTimer (timerId : string) (startToFireTimeout : Timestamp)
| CancelTimer (timerId : string)
| CompleteWorkflowExecution (result : Payload)
| FailWorkflowExecution (failure : Failure)
| RespondToQuery (r : QueryResult).

Record IStartWorkflow := {
  sw_headers : option (list (string * Payload));
  sw_arguments : option (list Payload);
}.

Record IFireTimer := { timerId_of : option string }.

Record ActivityTaskSuccess := { success_result : option Payload }.
Record ActivityTaskFailure := { failure_of : option Failure }.

(** [activation.result]: the three alternatives are tested in the order
    [completed], [failed], [canceled]. *)
Record ActivityResult := {
  completed_of : option ActivityTaskSuccess;
  failed_of : option ActivityTaskFailure;
  canceled_of : option unit;
}.

Record IResolveActivity := {
  activityId_of : option string;
  result_of : option ActivityResult;
}.

Record IQueryWorkflow := {
  queryType_of : option string;
  query_arguments : option (list Payload);
}.

Record ISignalWorkflow := {
  signalName_of : option string;
  signal_input : option (list Payload);
}.

Record IUpdateRandomSeed := { randomnessSeed_of : option Z }.

(** A decoded job: [job.variant] names the member of the oneof that is set and
    [job[job.variant]] is its value.  The value is a message, hence an object,
    for every member whose handler reads it; the handler of [removeFromCache]
    takes none, and of its value only the truthiness is kept. *)
Inductive JobVariant :=
| StartWorkflowJob (a : IStartWorkflow)
| CancelWorkflowJob
| FireTimerJob (a : IFireTimer)
| ResolveActivityJob (a : IResolveActivity)
| QueryWorkflowJob (a : IQueryWorkflow)
| SignalWorkflowJob (a : ISignalWorkflow)
| UpdateRandomSeedJob (a : IUpdateRandomSeed)
| RemoveFromCacheJob (value_truthy : bool).

(** [job.variant], the name *)
Definition variant_name (v : JobVariant) : string :=
  match v with
  | StartWorkflowJob _ => "startWorkflow"
  | CancelWorkflowJob => "cancelWorkflow"
  | FireTimerJob _ => "fireTimer"
  | ResolveActivityJob _ => "resolveActivity"
  | QueryWorkflowJob _ => "queryWorkflow"
  | SignalWorkflowJob _ => "signalWorkflow"
  | UpdateRandomSeedJob _ => "updateRandomSeed"
  | RemoveFromCacheJob _ => "removeFromCache"
  end.

(** [!!job[job.variant]] *)
Definition variant_set (v : JobVariant) : bool :=
  match v with
  | RemoveFromCacheJob b => b
  | _ => true
  end.

(** [job.variant === 'queryWorkflow'] *)
Definition is_queryWorkflow (v : JobVariant) : bool :=
  match v with
  | QueryWorkflowJob _ => true
  | _ => false
  end.

Record WFActivationJob := { variant : option JobVariant }.

Record WFActivation := {
  act_timestamp : option Timestamp;
  act_isReplaying : option bool;
  act_jobs : list WFActivationJob;
}.

Record WFActivationCompletion := {
  wc_runId : option string;
  wc_commands : list WorkflowCommand;
}.

(** ** Closures and scopes *)

Inductive CancelMethod := RequestCancel | CompleteCancel.

(** Function values held by the engine.  Closures built outside these sources
    (user callbacks, promise resolvers, the cancellation functions of child
    scopes) are references [FnExt]; the closures the sources build are kept
    as data and run by [apply] below. *)
Inductive Fn :=
| FnExt (ref : nat)
| FnTimerResolve (cb : Fn) (args : list Val)  (* () => cb(...args) *)
| FnIgnore                                    (* () => undefined *)
| FnRootRequestCancel                         (* rootScope.requestCancel *)
| FnRootCompleteCancel                        (* rootScope.completeCancel *)
| FnPropagate (method : CancelMethod) (reject : Fn) (scope : nat).
                                              (* propagateCancellation(method)(reject, scope) *)

Inductive ScopeType := TScope | TActivity | TTimer.

(** A scope object.  Every scope the sources create has its own [idx] (0 for
    the root, [nextScopeIdx++] for the others), so object identity is [idx];
    the one mutable field, [associated], lives in the engine state. *)
#[warnings="-register-all"]
Inductive Scope := MkScope {
  scope_type : ScopeType;
  idx : nat;
  parent : option Scope;
  requestCancel : Fn;
  completeCancel : Fn;
}.

Definition scope_method (m : CancelMethod) (sc : Scope) : Fn :=
  match m with
  | RequestCancel => requestCancel sc
  | CompleteCancel => completeCancel sc
  end.

Definition rootScope : Scope := {|
  scope_type := TScope;
  idx := 0;
  parent := None;
  requestCancel := FnRootRequestCancel;
  completeCancel := FnRootCompleteCancel;
|}.

(** [rootScopeCancel = propagateCancellation('completeCancel')(() => undefined, rootScope)] *)
Definition rootScopeCancel : Fn := FnPropagate CompleteCancel FnIgnore (idx rootScope).

Record Completion := MkCompletion {
  resolve : Fn;
  reject : Fn;
  scope : Scope;
}.

Record ExternalCall := MkExternalCall {
  ifaceName : string;
  fnName : string;
  call_args : list Val;
  call_seq : option Z;
}.

(** ** JavaScript [Set<Scope>]

    A set keeps its entries in insertion order; [delete] leaves a hole, so
    that an iterator running over the set keeps its position. *)
Abbreviation ScopeSet := (list (option Scope)).

Definition same_scope (a b : Scope) : bool := bool_decide (idx a = idx b).

Definition set_has (x : Scope) (es : ScopeSet) : bool :=
  existsb (fun e => match e with Some y => same_scope y x | None => false end) es.

Definition set_add (x : Scope) (es : ScopeSet) : ScopeSet :=
  if set_has x es then es else es ++ [Some x].

Definition set_delete (x : Scope) (es : ScopeSet) : ScopeSet :=
  map (fun e => match e with
                | Some y => if same_scope y x then None else Some y
                | None => None
                end) es.

Definition set_size (es : ScopeSet) : nat :=
  length (filter (fun e => is_Some e) es).

(** The members of a set, in iteration order. *)
Definition set_members (es : ScopeSet) : list Scope := omap id es.

(** ** Engine state *)

Record WorkflowInfo := MkInfo {
  runId : string;
  isReplaying : bool;
}.

(** The workflow object: references to the user's functions. *)
Record Workflow := MkWorkflow {
  main : nat;
  queries : option (gmap string nat);
  signals : option (gmap string nat);
}.

Record WorkflowInterceptors := MkInterceptors {
  inbound : list nat;
  outbound : list nat;
}.

(** The data the promise hook attaches to a promise. *)
Record PromiseData := MkPromiseData {
  pd_scope : Scope;
  cancellable : bool;
}.

(** [class State].  [setHeap] and [nextObj] are the part of the JavaScript heap
    the engine allocates in: the [Set] objects that [childScopes] points to and
    the identities of the objects made by [new].  [associated] holds the flag
    of that name of every scope object, and [promiseData] is the table behind
    [isolateExtension.setPromiseData] and [getPromiseData].  The fields
    [activator], [rootScope] (constants), [activityDefaults] and
    [dependencies] (read by none of the functions below) are left out. *)
Record State := MkState {
  completions : gmap Z Completion;
  scopeStack : list Scope;               (* top of the stack is the last element *)
  childScopes : gmap nat nat;            (* scope idx -> address of its Set *)
  interceptors : WorkflowInterceptors;
  commands : list WorkflowCommand;
  pendingExternalCalls : list ExternalCall;
  completed : bool;
  cancelled : bool;
  nextSeq : Z;
  nextScopeIdx : nat;
  now : option Z;                        (* #now *)
  workflow : option Workflow;
  info : option WorkflowInfo;
  random : option (list Z);              (* Some b: alea(b); None: the initial RNG, which throws *)
  associated : gset nat;                 (* the scopes whose [associated] is true *)
  promiseData : gmap nat PromiseData;    (* the isolate extension's table, by promise *)
  setHeap : gmap nat ScopeSet;
  nextObj : nat;
}.

(** [new State()] *)
Definition initial_state : State := {|
  completions := ∅;
  scopeStack := [rootScope];
  childScopes := ∅;
  interceptors := {| inbound := []; outbound := [] |};
  commands := [];
  pendingExternalCalls := [];
  completed := false;
  cancelled := false;
  nextSeq := 0;
  nextScopeIdx := S (idx rootScope);
  now := None;
  workflow := None;
  info := None;
  random := None;
  associated := {[ idx rootScope ]};
  promiseData := ∅;
  setHeap := ∅;
  nextObj := 0;
|}.

Definition set_completions (f : gmap Z Completion → gmap Z Completion) (s : State) : State :=
  MkState (f (completions s)) (scopeStack s) (childScopes s) (interceptors s)
    (commands s) (pendingExternalCalls s) (completed s) (cancelled s)
    (nextSeq s) (nextScopeIdx s) (now s) (workflow s) (info s) (random s)
    (associated s) (promiseData s) (setHeap s) (nextObj s).

Definition set_scopeStack (f : list Scope → list Scope) (s : State) : State :=
  MkState (completions s) (f (scopeStack s)) (childScopes s) (interceptors s)
    (commands s) (pendingExternalCalls s) (completed s) (cancelled s)
    (nextSeq s) (nextScopeIdx s) (now s) (workflow s) (info s) (random s)
    (associated s) (promiseData s) (setHeap s) (nextObj s).

Definition set_childScopes (f : gmap nat nat → gmap nat nat) (s : State) : State :=
  MkState (completions s) (scopeStack s) (f (childScopes s)) (interceptors s)
    (commands s) (pendingExternalCalls s) (completed s) (cancelled s)
    (nextSeq s) (nextScopeIdx s) (now s) (workflow s) (info s) (random s)
    (associated s) (promiseData s) (setHeap s) (nextObj s).

Definition set_commands (f : list WorkflowCommand → list WorkflowCommand) (s : State) : State :=
  MkState (completions s) (scopeStack s) (childScopes s) (interceptors s)
    (f (commands s)) (pendingExternalCalls s) (completed s) (cancelled s)
    (nextSeq s) (nextScopeIdx s) (now s) (workflow s) (info s) (random s)
    (associated s) (promiseData s) (setHeap s) (nextObj s).

Definition set_pendingExternalCalls (f : list ExternalCall → list ExternalCall) (s : State) : State :=
  MkState (completions s) (scopeStack s) (childScopes s) (interceptors s)
    (commands s) (f (pendingExternalCalls s)) (completed s) (cancelled s)
    (nextSeq s) (nextScopeIdx s) (now s) (workflow s) (info s) (random s)
    (associated s) (promiseData s) (setHeap s) (nextObj s).

Definition set_nextSeq (f : Z → Z) (s : State) : State :=
  MkState (completions s) (scopeStack s) (childScopes s) (interceptors s)
    (commands s) (pendingExternalCalls s) (completed s) (cancelled s)
    (f (nextSeq s)) (nextScopeIdx s) (now s) (workflow s) (info s) (random s)
    (associated s) (promiseData s) (setHeap s) (nextObj s).

Definition set_nextScopeIdx (f : nat → nat) (s : State) : State :=
  MkState (completions s) (scopeStack s) (childScopes s) (interceptors s)
    (commands s) (pendingExternalCalls s) (completed s) (cancelled s)
    (nextSeq s) (f (nextScopeIdx s)) (now s) (workflow s) (info s) (random s)
    (associated s) (promiseData s) (setHeap s) (nextObj s).

Definition set_info (f : option WorkflowInfo → option WorkflowInfo) (s : State) : State :=
  MkState (completions s) (scopeStack s) (childScopes s) (interceptors s)
    (commands s) (pendingExternalCalls s) (completed s) (cancelled s)
    (nextSeq s) (nextScopeIdx s) (now s) (workflow s) (f (info s)) (random s)
    (associated s) (promiseData s) (setHeap s) (nextObj s).

Definition set_associated (f : gset nat → gset nat) (s : State) : State :=
  MkState (completions s) (scopeStack s) (childScopes s) (interceptors s)
    (commands s) (pendingExternalCalls s) (completed s) (cancelled s)
    (nextSeq s) (nextScopeIdx s) (now s) (workflow s) (info s) (random s)
    (f (associated s)) (promiseData s) (setHeap s) (nextObj s).

Definition set_promiseData (f : gmap nat PromiseData → gmap nat PromiseData) (s : State) : State :=
  MkState (completions s) (scopeStack s) (childScopes s) (interceptors s)
    (commands s) (pendingExternalCalls s) (completed s) (cancelled s)
    (nextSeq s) (nextScopeIdx s) (now s) (workflow s) (info s) (random s)
    (associated s) (f (promiseData s)) (setHeap s) (nextObj s).

Definition set_setHeap (f : gmap nat ScopeSet → gmap nat ScopeSet) (s : State) : State :=
  MkState (completions s) (scopeStack s) (childScopes s) (interceptors s)
    (commands s) (pendingExternalCalls s) (completed s) (cancelled s)
    (nextSeq s) (nextScopeIdx s) (now s) (workflow s) (info s) (random s)
    (associated s) (promiseData s) (f (setHeap s)) (nextObj s).

Definition set_nextObj (f : nat → nat) (s : State) : State :=
  MkState (completions s) (scopeStack s) (childScopes s) (interceptors s)
    (commands s) (pendingExternalCalls s) (completed s) (cancelled s)
    (nextSeq s) (nextScopeIdx s) (now s) (workflow s) (info s) (random s)
    (associated s) (promiseData s) (setHeap s) (f (nextObj s)).

Definition set_interceptors (i : WorkflowInterceptors) (s : State) : State :=
  MkState (completions s) (scopeStack s) (childScopes s) i (commands s)
    (pendingExternalCalls s) (completed s) (cancelled s) (nextSeq s)
    (nextScopeIdx s) (now s) (workflow s) (info s) (random s) (associated s)
    (promiseData s) (setHeap s) (nextObj s).

Definition set_completed (b : bool) (s : State) : State :=
  MkState (completions s) (scopeStack s) (childScopes s) (interceptors s)
    (commands s) (pendingExternalCalls s) b (cancelled s) (nextSeq s)
    (nextScopeIdx s) (now s) (workflow s) (info s) (random s) (associated s)
    (promiseData s) (setHeap s) (nextObj s).

Definition set_cancelled (b : bool) (s : State) : State :=
  MkState (completions s) (scopeStack s) (childScopes s) (interceptors s)
    (commands s) (pendingExternalCalls s) (completed s) b (nextSeq s)
    (nextScopeIdx s) (now s) (workflow s) (info s) (random s) (associated s)
    (promiseData s) (setHeap s) (nextObj s).

Definition set_now (t : Z) (s : State) : State :=
  MkState (completions s) (scopeStack s) (childScopes s) (interceptors s)
    (commands s) (pendingExternalCalls s) (completed s) (cancelled s)
    (nextSeq s) (nextScopeIdx s) (Some t) (workflow s) (info s) (random s)
    (associated s) (promiseData s) (setHeap s) (nextObj s).

Definition set_workflow (w : Workflow) (s : State) : State :=
  MkState (completions s) (scopeStack s) (childScopes s) (interceptors s)
    (commands s) (pendingExternalCalls s) (completed s) (cancelled s)
    (nextSeq s) (nextScopeIdx s) (now s) (Some w) (info s) (random s)
    (associated s) (promiseData s) (setHeap s) (nextObj s).

Definition set_random (r : list Z) (s : State) : State :=
  MkState (completions s) (scopeStack s) (childScopes s) (interceptors s)
    (commands s) (pendingExternalCalls s) (completed s) (cancelled s)
    (nextSeq s) (nextScopeIdx s) (now s) (workflow s) (info s) (Some r)
    (associated s) (promiseData s) (setHeap s) (nextObj s).

(** ** Outcomes, promises and the host *)

(** The result of running engine code: a normal return, a thrown value (the
    mutations made before the throw are kept), or [Diverge] when the fuel that
    bounds nested closure calls runs out. *)
Inductive Outcome (A : Type) :=
| Ok (a : A) (s : State)
| Throw (e : Val) (s : State)
| Diverge.
Arguments Ok {A} a s.
Arguments Throw {A} e s.
Arguments Diverge {A}.

(** A promise, seen from the engine: settled, or pending with the rest of the
    asynchronous computation behind it.  The host's microtask loop resumes a
    pending promise with whatever the engine state is by then; the resumed
    code runs synchronously to its next suspension and leaves a new state and
    the promise's new status. *)
#[warnings="-register-all"]
Inductive Promise (A : Type) :=
| Fulfilled (a : A)
| Rejected (e : Val)
| Pending (resume : State → Outcome (Promise A)).
Arguments Fulfilled {A} a.
Arguments Rejected {A} e.
Arguments Pending {A} resume.

(** The state-and-exception monad engine code runs in. *)
Definition M (A : Type) := State → Outcome A.

(** A call of an asynchronous function: it runs synchronously to its first
    suspension and returns a promise. *)
Definition Async (A : Type) := M (Promise A).

(** What a call returns: a plain value or a promise. *)
Inductive Returned :=
| RVal (v : Val)
| RPromise (p : Promise Val).

Inductive InterceptedMethod := Execute | HandleSignal.

Record InterceptorInput := MkInput {
  in_headers : list (string * Payload);
  in_args : list Val;
  in_signalName : option string;
}.

(** What the sources take from outside: closures they are handed, helpers of
    modules that are not part of these sources, and built-ins.  The helpers
    are taken at their TypeScript signatures: they return a value. *)
Class Host := {
  (** calling a closure the engine did not build *)
  call_ext : nat → list Val → M Returned;
  (** [interceptor[method](input, next)] *)
  intercept : nat → InterceptedMethod → InterceptorInput →
              (InterceptorInput → Async Val) → Async Val;
  (** the built-in [parseInt] *)
  parseInt : string → Num;
  (** [defaultDataConverter] and [arrayFromPayloads] *)
  fromPayload : Payload → Val;
  toPayload : Val → Payload;
  arrayFromPayloads : option (list Payload) → list Val;
  errorToUserCodeFailure : Val → Failure;
  (** [./time] *)
  msToTs : Num → Timestamp;
  tsToMs : option Timestamp → Z;
  (** the generated protobuf codecs *)
  decodeDelimited : list Z → Val + WFActivation;
  encodeDelimited : WFActivationCompletion → list Z;
  (** calling, as a plain function, the member of [Object.prototype] that a
      plain object inherits under the given name *)
  call_inherited : string → list Val → M Returned;
}.

Definition ret {A} (a : A) : M A := fun s => Ok a s.

Definition bind {A B} (m : M A) (k : A → M B) : M B :=
  fun s => match m s with
           | Ok a s' => k a s'
           | Throw e s' => Throw e s'
           | Diverge => Diverge
           end.

Declare Scope engine_scope.
Delimit Scope engine_scope with engine.
Notation "x <- m ;; k" := (bind m (fun x => k))
  (at level 100, m at next level, right associativity) : engine_scope.
Notation "m ;; k" := (bind m (fun _ => k))
  (at level 100, right associativity) : engine_scope.
Open Scope engine_scope.

Definition throw {A} (e : Val) : M A := fun s => Throw e s.
Definition gets {A} (f : State → A) : M A := fun s => Ok (f s) s.
Definition modify (f : State → State) : M unit := fun s => Ok tt (f s).

(** [try { m } catch (e) { h e }] *)
Definition try_catch {A} (m : M A) (h : Val → M A) : M A :=
  fun s => match m s with
           | Throw e s' => h e s'
           | o => o
           end.

(** [new C(msg)]: a fresh object. *)
Definition new_error (c : ErrorClass) (msg : string) : M JsError :=
  fun s => Ok (MkError c msg (nextObj s)) (set_nextObj S s).

Definition throw_new {A} (c : ErrorClass) (msg : string) : M A :=
  e <- new_error c msg ;; throw (VErr e).

(** The state an outcome leaves, when it leaves one. *)
Definition state_of {A} (o : Outcome A) (default : State) : State :=
  match o with
  | Ok _ s => s
  | Throw _ s => s
  | Diverge => default
  end.

(** ** The scope stack *)

(** [currentScope()] *)
Definition currentScope : M Scope :=
  st <- gets scopeStack ;;
  match last st with
  | None => throw_new ErrorC "No scopes in stack"
  | Some sc => ret sc
  end.

(** [pushScope(scope)]; [new Set()] takes the next free address. *)
Definition pushScope (sc : Scope) : M Scope :=
  modify (set_scopeStack (fun st => st ++ [sc])) ;;
  match parent sc with
  | None => ret sc
  | Some p =>
      entry <- gets (fun s => childScopes s !! idx p) ;;
      children <- match entry with
                  | Some a => ret a
                  | None =>
                      a <- gets nextObj ;;
                      modify (set_nextObj S) ;;
                      modify (set_setHeap <[a := []]>) ;;
                      modify (set_childScopes <[idx p := a]>) ;;
                      ret a
                  end ;;
      modify (set_setHeap (alter (set_add sc) children)) ;;
      ret sc
  end.

(** [popScope()] *)
Definition popScope : M unit :=
  modify (set_scopeStack (@removelast Scope)).

(** ** The completion table *)

Definition lookup_completion (n : Num) (s : State) : option Completion :=
  match n with
  | NaN => None
  | Int z => completions s !! z
  end.

Definition delete_completion (n : Num) (s : State) : State :=
  match n with
  | NaN => s
  | Int z => set_completions (delete z) s
  end.

(** [consumeCompletion(taskSeq)] *)
Definition consumeCompletion (taskSeq : Num) : M Completion :=
  entry <- gets (lookup_completion taskSeq) ;;
  match entry with
  | None => throw_new ErrorC ("No completion for taskSeq " +:+ num_to_string taskSeq)
  | Some completion =>
      modify (delete_completion taskSeq) ;;
      ret completion
  end.

(** ** Promise reactions *)

(** A reaction job: [f] runs in a microtask of its own and settles the derived
    promise with what it returns or throws. *)
Definition reaction {B} (f : M B) : Promise B :=
  Pending (fun s => match f s with
                    | Ok b s' => Ok (Fulfilled b) s'
                    | Throw e s' => Ok (Rejected e) s'
                    | Diverge => Diverge
                    end).

(** [p.then(f)], for a handler that returns a plain value. *)
Fixpoint promise_then {A B} (p : Promise A) (f : A → M B) : Promise B :=
  match p with
  | Fulfilled a => reaction (f a)
  | Rejected e => Pending (fun s => Ok (Rejected e) s)
  | Pending resume =>
      Pending (fun s => match resume s with
                        | Ok p' s' => Ok (promise_then p' f) s'
                        | Throw e s' => Throw e s'
                        | Diverge => Diverge
                        end)
  end.

(** [p.catch(g)], for a handler that returns a plain value. *)
Fixpoint promise_catch {A} (p : Promise A) (g : Val → M A) : Promise A :=
  match p with
  | Fulfilled a => Pending (fun s => Ok (Fulfilled a) s)
  | Rejected e => reaction (g e)
  | Pending resume =>
      Pending (fun s => match resume s with
                        | Ok p' s' => Ok (promise_catch p' g) s'
                        | Throw e s' => Throw e s'
                        | Diverge => Diverge
                        end)
  end.

(** The host's microtask loop, as far as one promise is concerned: the promise
    is resumed once for each element of [env], which is the engine state it
    finds at that resumption; [s] is the state its last step left. *)
Fixpoint drive {A} (env : list State) (p : Promise A) (s : State) : option (Promise A * State) :=
  match env, p with
  | [], _ => Some (p, s)
  | e :: env', Pending resume =>
      match resume e with
      | Ok p' s' => drive env' p' s'
      | _ => None
      end
  | _ :: _, _ => None
  end.

(** [Long.prototype.toBytes()]: the eight bytes of the value, high byte first. *)
Definition long_toBytes (z : Z) : list Z :=
  map (fun i => Z.land (Z.shiftr z (8 * i)) 255) [7; 6; 5; 4; 3; 2; 1; 0].

(** [ToBoolean(v)] *)
Definition truthy (v : Val) : bool :=
  match v with
  | VUndefined | VNull => false
  | VBool b => b
  | VNum NaN => false
  | VNum (Int z) => negb (bool_decide (z = 0))
  | VStr s => negb (bool_decide (s = ""))
  | VErr _ => true
  end.

Section Engine.
Context {host : Host}.

(** [idToSeq(id)] *)
Definition idToSeq (id : option string) : M Num :=
  match id with
  | None | Some "" => throw_new ErrorC "Got activation with no timerId"
  | Some id => ret (parseInt id)
  end.

(** ** The deterministic timers of [overrideGlobals] *)

(** [state.nextSeq++] *)
Definition post_increment_nextSeq : M Z :=
  seq <- gets nextSeq ;;
  modify (set_nextSeq (fun n => n + 1)) ;;
  ret seq.

(** [global.setTimeout = function (cb, ms, ...args)].  [seq] is a value of the
    counter [nextSeq], which starts at 0 and goes up by one at a time; it
    stays far below [2^53], where [`${seq}`] is the decimal digits of [seq]. *)
Definition setTimeout (cb : Fn) (ms : Num) (args : list Val) : M Z :=
  seq <- post_increment_nextSeq ;;
  sc <- currentScope ;;
  modify (set_completions
            <[seq := {| resolve := FnTimerResolve cb args;
                        reject := FnIgnore;
                        scope := sc |}]>) ;;
  modify (set_commands (fun c => c ++ [StartTimer (pretty seq) (msToTs ms)])) ;;
  ret seq.

(** [global.clearTimeout = function (handle)].  [handle] is whatever number
    the caller passes. *)
Definition clearTimeout (handle : Num) : M unit :=
  _ <- post_increment_nextSeq ;;
  modify (delete_completion handle) ;;
  modify (set_commands (fun c => c ++ [CancelTimer (num_to_string handle)])).

(** ** Calling closures; [propagateCancellation] *)

(** The body of the loop of [propagateCancellation]:
    [try { child[method](err) } catch (e) { if (e !== err) reject(e) }] *)
Definition visit (call : Fn → list Val → M Returned)
    (method : CancelMethod) (reject : Fn) (err : Val) (child : Scope) : M unit :=
  try_catch
    (_ <- call (scope_method method child) [err] ;; ret tt)
    (fun e => if strict_eq e err then ret tt
              else (_ <- call reject [e] ;; ret tt)).

(** The entries of the set at address [a]. *)
Definition heap_entries (a : nat) (s : State) : ScopeSet :=
  default [] (setHeap s !! a).

(** The loop of [propagateCancellation], [for (const child of children) ...].
    The iterator is at position [i] of the set at address [children]; the set
    is read again at every step, as the calls may have changed it. *)
Fixpoint forOfChildren (call : Fn → list Val → M Returned) (fuel : nat)
    (method : CancelMethod) (reject : Fn) (err : Val) (children : nat) (i : nat) : M unit :=
  match fuel with
  | O => fun _ => Diverge
  | S fuel' =>
      entries <- gets (heap_entries children) ;;
      match entries !! i with
      | None => ret tt
      | Some None => forOfChildren call fuel' method reject err children (S i)
      | Some (Some child) =>
          visit call method reject err child ;;
          forOfChildren call fuel' method reject err children (S i)
      end
  end.

(** [f(...args)] *)
Fixpoint apply (fuel : nat) (f : Fn) (args : list Val) : M Returned :=
  match fuel with
  | O => fun _ => Diverge
  | S fuel' =>
      match f with
      | FnExt ref => call_ext ref args
      | FnTimerResolve cb cargs => apply fuel' cb cargs
      | FnIgnore => ret (RVal VUndefined)
      | FnRootRequestCancel =>
          throw_new ErrorC "Root scope cannot be cancelled from within a workflow"
      | FnRootCompleteCancel =>
          _ <- apply fuel' rootScopeCancel [default VUndefined (head args)] ;;
          ret (RVal VUndefined)
      | FnPropagate method reject sc =>
          let err := default VUndefined (head args) in
          entry <- gets (fun s => childScopes s !! sc) ;;
          match entry with
          | None => throw_new ErrorC "Expected to find child scope mapping, got undefined"
          | Some children =>
              forOfChildren (apply fuel') fuel' method reject err children 0%nat ;;
              (* If no children throw, make sure to reject this promise *)
              _ <- apply fuel' reject [err] ;;
              ret (RVal VUndefined)
          end
      end
  end.

(** ** Completing the workflow and answering queries *)

Definition push_command (c : WorkflowCommand) : M unit :=
  modify (set_commands (fun cs => cs ++ [c])).

(** [completeWorkflow(result)] *)
Definition completeWorkflow (result : Val) : M Val :=
  push_command (CompleteWorkflowExecution (toPayload result)) ;;
  modify (set_completed true) ;;
  ret VUndefined.

(** [failWorkflow(error)] *)
Definition failWorkflow (error : Val) : M Val :=
  push_command (FailWorkflowExecution (errorToUserCodeFailure error)) ;;
  modify (set_completed true) ;;
  ret VUndefined.

(** [completeQuery(result)] *)
Definition completeQuery (result : Val) : M Val :=
  push_command (RespondToQuery (Succeeded (toPayload result))) ;;
  ret VUndefined.

(** [error.message], for the values an [any] can be here *)
Definition message_of (error : Val) : M (option string) :=
  match error with
  | VErr e => ret (Some (err_message e))
  | VUndefined | VNull => throw_new TypeErrorC "Cannot read property 'message' of undefined"
  | _ => ret None
  end.

(** [failQuery(error)] *)
Definition failQuery (error : Val) : M Val :=
  msg <- message_of error ;;
  push_command (RespondToQuery (FailedWithMessage msg)) ;;
  ret VUndefined.

(** ** Interceptors *)

(** Modelled from the spec: [composeInterceptors] of [./interceptors], which is
    not part of these sources.  "Composition is right-fold: the last
    interceptor wraps the base action, each preceding interceptor wraps the
    next.  Each interceptor receives (input, next)". *)
Definition composeInterceptors (interceptors : list nat) (method : InterceptedMethod)
    (next : InterceptorInput → Async Val) : InterceptorInput → Async Val :=
  fold_right (fun i nxt input => intercept i method input nxt) next interceptors.

(** *** Properties of plain objects *)

(** [workflow.queries] and [workflow.signals] are plain objects.  Reading
    [record[name]] finds the record's own property of that name and, when
    there is none, the property that [Object.prototype] has under that name. *)
Definition Object_prototype_names : list string :=
  ["constructor"; "hasOwnProperty"; "isPrototypeOf"; "propertyIsEnumerable";
   "toLocaleString"; "toString"; "valueOf"; "__proto__";
   "__defineGetter__"; "__defineSetter__"; "__lookupGetter__"; "__lookupSetter__"].

Inductive Property :=
| Own (fn : nat)
| Inherited (name : string).

(** [record[name]]; [None] is [undefined]. *)
Definition get_property (record : gmap string nat) (name : string) : option Property :=
  match record !! name with
  | Some fn => Some (Own fn)
  | None =>
      if bool_decide (name ∈ Object_prototype_names) then Some (Inherited name) else None
  end.

(** [fn(...args)] for [fn] read from a record.  What [__proto__] gives is
    [Object.prototype] itself, which is not a function. *)
Definition call_property (fn : Property) (args : list Val) : M Returned :=
  match fn with
  | Own fn => call_ext fn args
  | Inherited name =>
      if bool_decide (name = "__proto__") then throw_new TypeErrorC "fn is not a function"
      else call_inherited name args
  end.

(** [async (input) => { ...; return fn(...input.args) }]: the body runs at once;
    what it throws rejects the promise, and a promise it returns is followed
    (the microtasks spent on adopting it run no engine code). *)
Definition async_call (fn : nat) (args : list Val) : Async Val :=
  fun s => match call_ext fn args s with
           | Ok (RVal v) s' => Ok (Fulfilled v) s'
           | Ok (RPromise p) s' => Ok p s'
           | Throw e s' => Ok (Rejected e) s'
           | Diverge => Diverge
           end.

(** The same for a function read from a record. *)
Definition async_property (fn : Property) (args : list Val) : Async Val :=
  match fn with
  | Own fn => async_call fn args
  | Inherited _ =>
      fun s => match call_property fn args s with
               | Ok (RVal v) s' => Ok (Fulfilled v) s'
               | Ok (RPromise p) s' => Ok p s'
               | Throw e s' => Ok (Rejected e) s'
               | Diverge => Diverge
               end
  end.

Definition async_throw_new (c : ErrorClass) (msg : string) : Async Val :=
  e <- new_error c msg ;; ret (Rejected (VErr e)).

(** ** [class Activator]

    A handler returns nothing; the promise chains it leaves behind for the
    microtask loop are made explicit as its result. *)

(** The function that [startWorkflow] wraps in the interceptors:
    [async (input) => { if (state.workflow === undefined) throw ...; return state.workflow.main(...input.args) }] *)
Definition run_main (input : InterceptorInput) : Async Val :=
  w <- gets workflow ;;
  match w with
  | None => async_throw_new IllegalStateErrorC "state.workflow is not defined"
  | Some w => async_call (main w) (in_args input)
  end.

(** [p.then(completeWorkflow).catch(failWorkflow)] *)
Definition completion_chain (p : Promise Val) : Promise Val :=
  promise_catch (promise_then p completeWorkflow) failWorkflow.

(** [Activator.startWorkflow] *)
Definition startWorkflow (activation : IStartWorkflow) : M (list (Promise Val)) :=
  inb <- gets (fun s => inbound (interceptors s)) ;;
  let execute := composeInterceptors inb Execute run_main in
  p <- execute {| in_headers := default [] (sw_headers activation);
                  in_args := arrayFromPayloads (sw_arguments activation);
                  in_signalName := None |} ;;
  ret [completion_chain p].

(** [Activator.cancelWorkflow] *)
Definition cancelWorkflow (fuel : nat) : M (list (Promise Val)) :=
  modify (set_cancelled true) ;;
  err <- new_error (CancellationErrorC External) "Workflow cancelled" ;;
  _ <- apply fuel rootScopeCancel [VErr err] ;;
  ret [].

(** [Activator.fireTimer] *)
Definition fireTimer (fuel : nat) (activation : IFireTimer) : M (list (Promise Val)) :=
  seq <- idToSeq (timerId_of activation) ;;
  c <- consumeCompletion seq ;;
  _ <- apply fuel (resolve c) [VUndefined] ;;
  ret [].

(** [Activator.resolveActivity] *)
Definition resolveActivity (fuel : nat) (activation : IResolveActivity) : M (list (Promise Val)) :=
  match result_of activation with
  | None => throw_new ErrorC "Got CompleteActivity activation with no result"
  | Some result =>
      seq <- idToSeq (activityId_of activation) ;;
      c <- consumeCompletion seq ;;
      match completed_of result, failed_of result, canceled_of result with
      | Some completed, _, _ =>
          let result := match success_result completed with
                        | Some payload => fromPayload payload
                        | None => VUndefined
                        end in
          if strict_eq result VUndefined then
            e <- new_error ErrorC "Failed to convert from payload" ;;
            _ <- apply fuel (reject c) [VErr e] ;;
            ret []
          else
            _ <- apply fuel (resolve c) [result] ;;
            ret []
      | None, Some failed, _ =>
          e <- new_error ErrorC (default "" (failure_of failed ≫= failure_message)) ;;
          _ <- apply fuel (reject c) [VErr e] ;;
          ret []
      | None, None, Some _ =>
          try_catch
            (e <- new_error (CancellationErrorC Internal) "Activity cancelled" ;;
             _ <- apply fuel (completeCancel (scope c)) [VErr e] ;;
             ret [])
            (fun e => if instanceof_CancellationError e then ret [] else throw e)
      | None, None, None => ret []
      end
  end.

(** [Activator.queryWorkflow] *)
Definition queryWorkflow (activation : IQueryWorkflow) : M (list (Promise Val)) :=
  w <- gets workflow ;;
  match w with
  | None => throw_new ErrorC "state.workflow is not defined"
  | Some w =>
      try_catch
        match queries w with
        | None => throw_new ErrorC "Workflow did not define any queries"
        | Some queries =>
            match queryType_of activation with
            | None | Some "" => throw_new ErrorC "Missing query type"
            | Some queryType =>
                match get_property queries queryType with
                | None => throw_new TypeErrorC "fn is not a function"
                | Some fn =>
                    retOrPromise <- call_property fn
                                      (arrayFromPayloads (query_arguments activation)) ;;
                    match retOrPromise with
                    | RPromise p =>
                        ret [promise_catch (promise_then p completeQuery) failQuery]
                    | RVal v => _ <- completeQuery v ;; ret []
                    end
                end
            end
        end
        (fun err => _ <- failQuery err ;; ret [])
  end.

(** [Activator.signalWorkflow] *)
Definition signalWorkflow (activation : ISignalWorkflow) : M (list (Promise Val)) :=
  w <- gets workflow ;;
  match w with
  | None => throw_new ErrorC "state.workflow is not defined"
  | Some w =>
      match signals w with
      | None => throw_new ErrorC "Workflow did not define any signals"
      | Some signals =>
          match signalName_of activation with
          | None | Some "" => throw_new ErrorC "Missing activation signalName"
          | Some signalName =>
              match get_property signals signalName with
              | None =>
                  throw_new ErrorC ("Workflow did not register a signal named " +:+ signalName)
              | Some fn =>
                  inb <- gets (fun s => inbound (interceptors s)) ;;
                  let execute :=
                    composeInterceptors inb HandleSignal (fun input =>
                      w <- gets workflow ;;
                      match w with
                      | None =>
                          async_throw_new IllegalStateErrorC "state.workflow is not defined"
                      | Some _ => async_property fn (in_args input)
                      end) in
                  p <- execute {| in_headers := [];
                                  in_args := arrayFromPayloads (signal_input activation);
                                  in_signalName := Some signalName |} ;;
                  ret [promise_catch p failWorkflow]
              end
          end
      end
  end.

(** [Activator.updateRandomSeed] *)
Definition updateRandomSeed (activation : IUpdateRandomSeed) : M (list (Promise Val)) :=
  match randomnessSeed_of activation with
  | None => throw_new ErrorC "Expected activation with randomnessSeed attribute"
  | Some seed => modify (set_random (long_toBytes seed)) ;; ret []
  end.

(** [Activator.removeFromCache] *)
Definition removeFromCache : M (list (Promise Val)) :=
  throw_new IllegalStateErrorC "removeFromCache activation job should not reach workflow".

(** [state.activator[job.variant](variant)] *)
Definition dispatch (fuel : nat) (v : JobVariant) : M (list (Promise Val)) :=
  match v with
  | StartWorkflowJob a => startWorkflow a
  | CancelWorkflowJob => cancelWorkflow fuel
  | FireTimerJob a => fireTimer fuel a
  | ResolveActivityJob a => resolveActivity fuel a
  | QueryWorkflowJob a => queryWorkflow a
  | SignalWorkflowJob a => signalWorkflow a
  | UpdateRandomSeedJob a => updateRandomSeed a
  | RemoveFromCacheJob _ => removeFromCache
  end.

(** ** [activate] and [concludeActivation] *)

(** [State.getAndResetPendingExternalCalls()] *)
Definition getAndResetPendingExternalCalls : M (list ExternalCall) :=
  calls <- gets pendingExternalCalls ;;
  if (0 <? length calls)%nat then
    modify (set_pendingExternalCalls (fun _ => [])) ;;
    ret calls
  else ret [].

Record ActivationJobResult := {
  pendingExternalCalls_of : list ExternalCall;
  processed : bool;
}.

(** [activate(encodedActivation, jobIndex)] *)
Definition activate (fuel : nat) (encodedActivation : list Z) (jobIndex : nat)
    : M (ActivationJobResult * list (Promise Val)) :=
  activation <- match decodeDelimited encodedActivation with
                | inl e => throw e
                | inr a => ret a
                end ;;
  let job := act_jobs activation !! jobIndex in
  modify (set_now (tsToMs (act_timestamp activation))) ;;
  i <- gets info ;;
  match i with
  | None => throw_new IllegalStateErrorC "Workflow has not been initialized"
  | Some _ =>
      modify (set_info (fmap (fun i =>
        {| runId := runId i; isReplaying := default false (act_isReplaying activation) |}))) ;;
      match job with
      | None => throw_new TypeErrorC "Cannot read property 'variant' of undefined"
      | Some job =>
          match variant job with
          | None => throw_new TypeErrorC "Expected job.variant to be defined"
          | Some v =>
              if negb (variant_set v) then
                throw_new TypeErrorC ("Expected job." +:+ variant_name v +:+ " to be set")
              else
                (* The only job that can be executed on a completed workflow is a query. *)
                done <- gets completed ;;
                if done && negb (is_queryWorkflow v) then
                  calls <- getAndResetPendingExternalCalls ;;
                  ret ({| processed := false; pendingExternalCalls_of := calls |}, [])
                else
                  spawned <- dispatch fuel v ;;
                  calls <- getAndResetPendingExternalCalls ;;
                  ret ({| processed := true; pendingExternalCalls_of := calls |}, spawned)
          end
      end
  end.

Inductive ActivationConclusion :=
| ConclusionPending (pendingExternalCalls : list ExternalCall)
| ConclusionComplete (encoded : list Z).

(** [concludeActivation()] *)
Definition concludeActivation : M ActivationConclusion :=
  calls <- getAndResetPendingExternalCalls ;;
  if (0 <? length calls)%nat then ret (ConclusionPending calls)
  else
    cmds <- gets commands ;;
    i <- gets info ;;
    let encoded := encodeDelimited {| wc_runId := runId <$> i; wc_commands := cmds |} in
    modify (set_commands (fun _ => [])) ;;
    ret (ConclusionComplete encoded).

(** ** External dependencies *)

Record ExternalDependencyResult := {
  dep_seq : Num;
  dep_result : Val;
  dep_error : Val;
}.

(** [resolveExternalDependencies(results)] *)
Fixpoint resolveExternalDependencies (fuel : nat) (results : list ExternalDependencyResult) : M unit :=
  match results with
  | [] => ret tt
  | r :: rest =>
      completion <- consumeCompletion (dep_seq r) ;;
      _ <- (if truthy (dep_error r) then apply fuel (reject completion) [dep_error r]
            else apply fuel (resolve completion) [dep_result r]) ;;
      resolveExternalDependencies fuel rest
  end.

(** ** [initWorkflow] and the promise hook *)

(** [initWorkflow(workflow, info, randomnessSeed, isolateExtension, interceptors)],
    up to the registration of the hook below. *)
Definition initWorkflow (w : Workflow) (i : WorkflowInfo) (randomnessSeed : list Z)
    (ints : WorkflowInterceptors) : M unit :=
  modify (set_workflow w) ;;
  modify (set_interceptors ints) ;;
  modify (set_info (fun _ => Some i)) ;;
  modify (set_random randomnessSeed).

Inductive HookType := HookInit | HookResolve | HookBefore | HookAfter.

(** [while (scope.type !== 'scope') scope = scope.parent] *)
Fixpoint container_scope (sc : Scope) : option Scope :=
  match sc with
  | MkScope TScope _ _ _ _ => Some sc
  | MkScope _ _ (Some p) _ _ => container_scope p
  | MkScope _ _ None _ _ => None
  end.

(** The hook registered by [initWorkflow]: [(t, p, pp) => { switch (t) ... }] *)
Definition promiseHook (t : HookType) (p : nat) (pp : option nat) : M unit :=
  match t with
  | HookInit =>
      sc <- currentScope ;;
      is_associated <- gets (fun s => bool_decide (idx sc ∈ associated s)) ;;
      let cancellable := negb is_associated in
      match pp with
      | None =>
          modify (set_promiseData <[p := {| pd_scope := sc; cancellable := cancellable |}]>)
      | Some pp =>
          parentData <- gets (fun s => promiseData s !! pp) ;;
          parentScope <- match parentData with
                         | None =>
                             modify (set_promiseData
                                       <[pp := {| pd_scope := sc; cancellable := false |}]>) ;;
                             ret sc
                         | Some d => ret (pd_scope d)
                         end ;;
          modify (set_promiseData
                    <[p := {| pd_scope := parentScope; cancellable := cancellable |}]>)
      end ;;
      modify (set_associated (union {[ idx sc ]}))
  | HookResolve =>
      data <- gets (fun s => promiseData s !! p) ;;
      match data with
      | None => throw_new IllegalStateErrorC "Expected promise to have an associated scope"
      | Some data =>
          if cancellable data then
            match parent (pd_scope data) with
            | None => throw_new IllegalStateErrorC "Resolved promise for orphan scope"
            | Some par =>
                entry <- gets (fun s => childScopes s !! idx par) ;;
                match entry with
                | None => ret tt
                | Some scopes =>
                    modify (set_setHeap (alter (set_delete (pd_scope data)) scopes)) ;;
                    size <- gets (fun s => set_size (heap_entries scopes s)) ;;
                    if bool_decide (size = 0%nat)
                    then modify (set_childScopes (delete (idx par)))
                    else ret tt
                end
            end
          else ret tt
      end
  | HookBefore =>
      data <- gets (fun s => promiseData s !! p) ;;
      match data with
      | None => throw_new IllegalStateErrorC "Expected promise to have an associated scope"
      | Some data =>
          match container_scope (pd_scope data) with
          | None => throw_new IllegalStateErrorC "Found parentless scope"
          | Some sc => _ <- pushScope sc ;; ret tt
          end
      end
  | HookAfter =>
      data <- gets (fun s => promiseData s !! p) ;;
      match data with
      | None => throw_new IllegalStateErrorC "Expected promise to have an associated scope"
      | Some _ => popScope
      end
  end.

(** ** Iterating over a list of scopes, for the statements below *)

(** [body] for each scope in turn; a throw ends the iteration. *)
Fixpoint visit_all (body : Scope → M unit) (children : list Scope) : M unit :=
  match children with
  | [] => ret tt
  | child :: rest => body child ;; visit_all body rest
  end.

(** [try { m } catch { }] *)
Definition swallow (m : M Returned) : M unit :=
  try_catch (_ <- m ;; ret tt) (fun _ => ret tt).

End Engine.

(** * More of the sources *)

(** ** The clock *)

(** [State.now], the getter; [Date.now()] of [overrideGlobals] returns it. *)
Definition get_now : M Z :=
  t <- gets now ;;
  match t with
  | None => throw_new IllegalStateErrorC "Tried to get Date before Workflow has been initialized"
  | Some t => ret t
  end.

(** [global.Date.now = function () { return state.now; }] *)
Definition Date_now : M Z := get_now.

(** ** [inject] *)





(** The executor of the promise that a function injected with [ASYNC] makes,
    [(resolve, reject) => { const seq = state.nextSeq++; ... }]; [resolve] and
    [reject] are the resolvers the [Promise] constructor hands it. *)
Definition async_dependency_executor (ifaceName fnName : string) (args : list Val)
    (resolve reject : Fn) : M unit :=
  seq <- gets nextSeq ;;
  modify (set_nextSeq (fun n => n + 1)) ;;
  sc <- currentScope ;;
  modify (set_completions
            <[seq := {| resolve := resolve; reject := reject; scope := sc |}]>) ;;
  modify (set_pendingExternalCalls
            (fun c => c ++ [MkExternalCall ifaceName fnName args (Some seq)])).

(** The function injected with [ASYNC_IGNORED],
    [(...args) => state.pendingExternalCalls.push({ ifaceName, fnName, args })];
    [push] returns the new length. *)
Definition ignored_dependency_call (ifaceName fnName : string) (args : list Val) : M Z :=
  modify (set_pendingExternalCalls
            (fun c => c ++ [MkExternalCall ifaceName fnName args None])) ;;
  gets (fun s => Z.of_nat (length (pendingExternalCalls s))).

(** ** The chain of parents *)


(** ** An invariant of the child sets *)

(** Every set that [childScopes] points to is allocated, belongs to one scope
    only, holds no scope twice, and is not empty. *)
Definition child_sets_wf (s : State) : Prop :=
  ∀ k a, childScopes s !! k = Some a →
    (a < nextObj s)%nat
    ∧ (∀ k', childScopes s !! k' = Some a → k' = k)
    ∧ ∃ es, setHeap s !! a = Some es
            ∧ NoDup (idx <$> set_members es)
            ∧ (0 < set_size es)%nat.

(** * A host to run the engine on

    A small host, used to run the definitions on concrete inputs. *)

(** Of the members of [Object.prototype], [toString] called without a
    receiver gives [[object Undefined]]; the runs use no other, and the rest
    is given the [TypeError] of those that need a receiver. *)
Definition test_call_inherited (name : string) (args : list Val) : M Returned :=
  if bool_decide (name = "toString") then ret (RVal (VStr "[object Undefined]"))
  else throw_new TypeErrorC "Cannot convert undefined or null to object".

(** Closures: 0 returns [undefined]; 1 throws a string; 2 leaves a trace in
    the command buffer; 3 throws its argument back; 4 and 5 return a promise
    that is fulfilled, respectively rejected, when it is next resumed; any
    other returns a string. *)
Definition test_call_ext (ref : nat) (args : list Val) : M Returned :=
  match ref with
  | 0%nat => ret (RVal VUndefined)
  | 1%nat => throw (VStr "boom")
  | 2%nat =>
      modify (set_commands (fun c => c ++ [CancelTimer "seen"])) ;;
      ret (RVal VUndefined)
  | 3%nat => throw (default VUndefined (head args))
  | 4%nat => ret (RPromise (Pending (fun s => Ok (Fulfilled (VStr "done")) s)))
  | 5%nat => ret (RPromise (Pending (fun s => Ok (Rejected (VStr "failed")) s)))
  | _ => ret (RVal (VStr "value"))
  end.

Definition test_parseInt (s : string) : Num :=
  match s with
  | "0" => Int 0
  | "1" => Int 1
  | "7" => Int 7
  | _ => NaN
  end.

Definition test_fromPayload (p : Payload) : Val :=
  if bool_decide (data p = "") then VUndefined else VStr (data p).

Definition test_toPayload (v : Val) : Payload :=
  match v with
  | VStr s => MkPayload [] s
  | _ => MkPayload [] ""
  end.

Definition test_errorToUserCodeFailure (v : Val) : Failure :=
  match v with
  | VErr e => MkFailure (Some (err_message e))
  | VStr s => MkFailure (Some s)
  | _ => MkFailure (Some "Unknown error")
  end.

Definition test_msToTs (ms : Num) : Timestamp :=
  match ms with
  | Int z => MkTimestamp (z / 1000) ((z mod 1000) * 1000000)
  | NaN => MkTimestamp 0 0
  end.

Definition test_tsToMs (ts : option Timestamp) : Z :=
  match ts with
  | Some t => seconds t * 1000 + nanos t / 1000000
  | None => 0
  end.

Definition test_activation : WFActivation := {|
  act_timestamp := Some (MkTimestamp 5 0);
  act_isReplaying := Some true;
  act_jobs := [ {| variant := Some (FireTimerJob {| timerId_of := Some "0" |}) |};
                {| variant := Some (QueryWorkflowJob
                                      {| queryType_of := Some "status";
                                         query_arguments := None |}) |};
                {| variant := Some CancelWorkflowJob |} ];
|}.

Definition test_decodeDelimited (bytes : list Z) : Val + WFActivation :=
  match bytes with
  | [1] => inr test_activation
  | _ => inl (VStr "invalid wire type")
  end.

Definition test_host : Host := {|
  call_ext := test_call_ext;
  intercept := fun _ _ input next => next input;
  parseInt := test_parseInt;
  fromPayload := test_fromPayload;
  toPayload := test_toPayload;
  arrayFromPayloads := fun ps => map test_fromPayload (default [] ps);
  errorToUserCodeFailure := test_errorToUserCodeFailure;
  msToTs := test_msToTs;
  tsToMs := test_tsToMs;
  decodeDelimited := test_decodeDelimited;
  encodeDelimited := fun c => [Z.of_nat (length (wc_commands c))];
  call_inherited := test_call_inherited;
|}.

Definition test_workflow : Workflow := {|
  main := 4;
  queries := Some {[ "status" := 6%nat ]};
  signals := None;
|}.

(** A workflow that has been initialised and has run to completion. *)
Definition test_completed_state : State :=
  set_pendingExternalCalls
    (fun _ => [MkExternalCall "logger" "info" [VStr "bye"] None])
    (set_completed true
       (state_of (initWorkflow test_workflow (MkInfo "run-1" false) [1; 2; 3]
                    (MkInterceptors [] []) initial_state) initial_state)).

Definition test_child (i : nat) (cancel : nat) : Scope := {|
  scope_type := TScope;
  idx := i;
  parent := Some rootScope;
  requestCancel := FnExt 0;
  completeCancel := FnExt cancel;
|}.

(** The root has a set of three entries: a child whose [completeCancel] leaves
    a trace, a hole, and a child whose [completeCancel] throws. *)
Definition test_tree_state : State :=
  set_setHeap <[ 0%nat := [Some (test_child 1 2); None; Some (test_child 3 1)] ]>
    (set_childScopes <[ idx rootScope := 0%nat ]>
       (set_nextObj (fun _ => 1%nat) initial_state)).

(** A timer's completion is recorded under 1, with a [resolve] that leaves a
    trace. *)
Definition test_activity_state : State :=
  set_completions
    <[ 1 := {| resolve := FnExt 2; reject := FnExt 0; scope := rootScope |} ]>
    initial_state.

Definition test_resolveActivity : IResolveActivity := {|
  activityId_of := Some "1";
  result_of := Some {| completed_of := Some {| success_result := Some (MkPayload [] "ok") |};
                       failed_of := None;
                       canceled_of := None |};
|}.

(** A workflow with a query that answers later and a signal whose handler
    fails later, initialised and running. *)
Definition test_workflow_async : Workflow := {|
  main := 4;
  queries := Some {[ "later" := 4%nat; "status" := 6%nat ]};
  signals := Some {[ "go" := 5%nat ]};
|}.

Definition test_running_state : State :=
  state_of (initWorkflow test_workflow_async (MkInfo "run-2" false) [4; 5; 6]
              (MkInterceptors [] []) initial_state) initial_state.

(** A promise of scope [test_child 1 2] is known to the hook. *)
Definition test_hook_state : State :=
  set_promiseData <[ 5%nat := {| pd_scope := test_child 1 2; cancellable := true |} ]>
    test_tree_state.

(** The fresh state with a child of the root on top of the scope stack. *)
Definition test_open_scope_state : State :=
  set_scopeStack (fun st => st ++ [test_child 1 0]) initial_state.



(** * Properties *)

(** Unfolds the monadic plumbing. *)
Ltac run_engine :=
  unfold bind, ret, gets, modify, throw, throw_new, new_error, try_catch; simpl.

Lemma getAndResetPendingExternalCalls_eq (s : State) :
  getAndResetPendingExternalCalls s
  = Ok (pendingExternalCalls s) (set_pendingExternalCalls (fun _ => []) s).
Proof.
  unfold getAndResetPendingExternalCalls. run_engine.
  destruct s as [? ? ? ? ? calls ? ? ? ? ? ? ? ? ? ? ? ?]; simpl.
  destruct calls; reflexivity.
Qed.

(** [`${z}`] is the decimal digits of [z] for the integers up to [2^53]. *)
Lemma num_to_string_safe (z : Z) :
  Z.abs z ≤ 2 ^ 53 → num_to_string (Int z) = pretty z.
Proof.
  intros Hz. unfold num_to_string, positive_to_string.
  destruct z as [| q | q].
  - reflexivity.
  - replace (Z.pos q <? 0) with false by reflexivity.
    rewrite (proj2 (Z.leb_le (Z.pos q) (2 ^ 53))) by exact Hz. reflexivity.
  - replace (Z.neg q <? 0) with true by reflexivity.
    change (- Z.neg q) with (Z.pos q).
    rewrite (proj2 (Z.leb_le (Z.pos q) (2 ^ 53))) by exact Hz. reflexivity.
Qed.

(** From [10^21] on the template literal uses exponent notation. *)
Lemma num_to_string_1e21 : num_to_string (Int (10 ^ 21)) = "1e+21".
Proof. vm_compute. reflexivity. Qed.

Section Timers.
Context {host : Host}.

(** C5: [setTimeout(cb, ms, ...args)] takes [seq = nextSeq], increments
    [nextSeq], records under [seq] the completion whose [resolve] calls
    [cb(...args)], whose [reject] does nothing and whose scope is the current
    scope, appends [startTimer] with the decimal string of [seq] and the
    timeout made from [ms], and returns [seq]. *)
Theorem setTimeout_spec (cb : Fn) (ms : Num) (args : list Val) (s : State) (sc : Scope) :
  last (scopeStack s) = Some sc →
  setTimeout cb ms args s
  = Ok (nextSeq s)
       (set_commands
          (fun c => c ++ [StartTimer (pretty (nextSeq s)) (msToTs ms)])
          (set_completions
             <[nextSeq s := {| resolve := FnTimerResolve cb args;
                               reject := FnIgnore; scope := sc |}]>
             (set_nextSeq (fun n => n + 1) s)))
  ∧ currentScope s = Ok sc s
  ∧ (∀ fuel a st, apply (S fuel) (FnTimerResolve cb args) a st = apply fuel cb args st)
  ∧ (∀ fuel a st, apply (S fuel) FnIgnore a st = Ok (RVal VUndefined) st).
Proof.
  intros Htop. repeat split.
  - unfold setTimeout, post_increment_nextSeq, currentScope. run_engine.
    rewrite Htop. reflexivity.
  - unfold currentScope. run_engine. rewrite Htop. reflexivity.
Qed.

(** C6: [clearTimeout(handle)] increments [nextSeq], deletes the completion
    recorded under [handle], and appends [cancelTimer] with [`${handle}`] as
    timer id.  That is the decimal string of [handle] when [handle] is an
    integer of magnitude up to [2^53], as every sequence number is; for other
    handles it is the string JavaScript gives the number, which is [NaN] for
    [NaN] and [1e+21], not the decimal string, for [10^21]. *)
Theorem clearTimeout_spec (handle : Num) (s : State) :
  ∃ s', clearTimeout handle s = Ok tt s'
        ∧ nextSeq s' = nextSeq s + 1
        ∧ completions s' = match handle with
                           | Int z => delete z (completions s)
                           | NaN => completions s
                           end
        ∧ lookup_completion handle s' = None
        ∧ commands s' = commands s ++ [CancelTimer (num_to_string handle)]
        ∧ (∀ z, handle = Int z → Z.abs z ≤ 2 ^ 53 →
             commands s' = commands s ++ [CancelTimer (pretty z)])
        ∧ (handle = NaN → commands s' = commands s ++ [CancelTimer "NaN"])
        ∧ (handle = Int (10 ^ 21) → commands s' = commands s ++ [CancelTimer "1e+21"]).
Proof.
  eexists. split; [reflexivity |].
  destruct handle as [| z]; cbn [clearTimeout delete_completion lookup_completion].
  - split; [reflexivity |]. split; [reflexivity |]. split; [reflexivity |].
    split; [reflexivity |]. split; [| split].
    + intros z [=].
    + intros _. reflexivity.
    + intros [=].
  - split; [reflexivity |]. split; [reflexivity |].
    split; [apply lookup_delete_eq |]. split; [reflexivity |]. split; [| split].
    + intros z' [= <-] Hz. rewrite <- (num_to_string_safe z Hz). reflexivity.
    + intros [=].
    + intros [= ->]. rewrite <- num_to_string_1e21. reflexivity.
Qed.

(** C9: when no completion is recorded under [handle], [clearTimeout(handle)]
    still increments [nextSeq] and still appends [cancelTimer] for that handle,
    with [`${handle}`] as timer id: the decimal string of an integer of
    magnitude up to [2^53], and [1e+21] for [10^21].  The completion table is
    left as it was. *)
Theorem clearTimeout_unknown_handle (handle : Num) (s : State) :
  lookup_completion handle s = None →
  ∃ s', clearTimeout handle s = Ok tt s'
        ∧ nextSeq s' = nextSeq s + 1
        ∧ commands s' = commands s ++ [CancelTimer (num_to_string handle)]
        ∧ completions s' = completions s
        ∧ (∀ z, handle = Int z → Z.abs z ≤ 2 ^ 53 →
             commands s' = commands s ++ [CancelTimer (pretty z)])
        ∧ (handle = Int (10 ^ 21) → commands s' = commands s ++ [CancelTimer "1e+21"]).
Proof.
  intros Hnone. eexists. split; [reflexivity |].
  destruct handle as [| z]; cbn [clearTimeout delete_completion lookup_completion] in *.
  - split; [reflexivity |]. split; [reflexivity |]. split; [reflexivity |]. split.
    + intros z [=].
    + intros [=].
  - split; [reflexivity |]. split; [reflexivity |].
    split; [apply delete_id; exact Hnone |]. split.
    + intros z' [= <-] Hz. rewrite <- (num_to_string_safe z Hz). reflexivity.
    + intros [= ->]. rewrite <- num_to_string_1e21. reflexivity.
Qed.

End Timers.

Section Conclude.
Context {host : Host}.

(** C7: with a non-empty pending-external buffer, [concludeActivation] returns
    [pending] with the buffer's contents and leaves the commands as they are;
    with an empty one it returns [complete] with the length-delimited encoding
    of the run id and the commands, and empties the command buffer. *)
Theorem concludeActivation_spec (s : State) :
  concludeActivation s
  = match pendingExternalCalls s with
    | [] =>
        Ok (ConclusionComplete
              (encodeDelimited {| wc_runId := runId <$> info s;
                                  wc_commands := commands s |}))
           (set_commands (fun _ => []) s)
    | calls =>
        Ok (ConclusionPending calls) (set_pendingExternalCalls (fun _ => []) s)
    end
  ∧ commands (set_pendingExternalCalls (fun _ => []) s) = commands s
  ∧ commands (set_commands (fun _ => []) s) = [].
Proof.
  split; [| split; reflexivity].
  unfold concludeActivation, bind at 1.
  rewrite getAndResetPendingExternalCalls_eq.
  destruct s as [? ? ? ? ? calls ? ? ? ? ? ? ? ? ? ? ? ?]; simpl.
  destruct calls; reflexivity.
Qed.

End Conclude.

Lemma bind_Ok {A B} (m : M A) (k : A → M B) (s s' : State) (a : A) :
  m s = Ok a s' → bind m k s = k a s'.
Proof. intros H. unfold bind. rewrite H. reflexivity. Qed.

Lemma bind_Throw {A B} (m : M A) (k : A → M B) (s s' : State) (e : Val) :
  m s = Throw e s' → bind m k s = Throw e s'.
Proof. intros H. unfold bind. rewrite H. reflexivity. Qed.

Lemma consumeCompletion_missing (n : Num) (s : State) :
  lookup_completion n s = None →
  consumeCompletion n s
  = Throw (VErr (MkError ErrorC ("No completion for taskSeq " +:+ num_to_string n) (nextObj s)))
          (set_nextObj S s).
Proof.
  intros H. unfold consumeCompletion, bind at 1, gets. rewrite H. reflexivity.
Qed.

Lemma consumeCompletion_found (n : Num) (s : State) (c : Completion) :
  lookup_completion n s = Some c →
  consumeCompletion n s = Ok c (delete_completion n s).
Proof.
  intros H. unfold consumeCompletion, bind at 1, gets. rewrite H. reflexivity.
Qed.

Lemma lookup_delete_completion (n : Num) (s : State) :
  lookup_completion n (delete_completion n s) = None.
Proof. destruct n; simpl; [reflexivity | apply lookup_delete_eq]. Qed.

Lemma strict_eq_undefined (v : Val) : strict_eq v VUndefined = true ↔ v = VUndefined.
Proof. destruct v; simpl; split; congruence. Qed.

Section Resolution.
Context {host : Host}.

Lemma idToSeq_Some (id : string) (s : State) :
  id ≠ "" → idToSeq (Some id) s = Ok (parseInt id) s.
Proof. intros H. destruct id; [congruence | reflexivity]. Qed.

Lemma resolveExternalDependencies_app (fuel : nat)
    (l1 l2 : list ExternalDependencyResult) (s : State) :
  resolveExternalDependencies fuel (l1 ++ l2) s
  = (resolveExternalDependencies fuel l1 ;; resolveExternalDependencies fuel l2) s.
Proof.
  revert s. induction l1 as [| r l1 IH]; intros s; [reflexivity |].
  cbn [resolveExternalDependencies app]. unfold bind.
  destruct (consumeCompletion (dep_seq r) s) as [c s1 | |]; try reflexivity.
  destruct (if truthy (dep_error r) then _ else _) as [x s2 | |]; try reflexivity.
  rewrite IH. reflexivity.
Qed.

(** C2, as the code has it: a resolution job ([fireTimer], [resolveActivity],
    a result given to [resolveExternalDependencies]) whose sequence number has
    no entry in the completion table fails with a plain [Error], "No
    completion for taskSeq <seq>"; the completion table is not touched. *)
Theorem missing_completion_throws_Error (fuel : nat) (s : State) :
  (∀ a id, timerId_of a = Some id → id ≠ "" →
     lookup_completion (parseInt id) s = None →
     fireTimer fuel a s
     = Throw (VErr (MkError ErrorC
                      ("No completion for taskSeq " +:+ num_to_string (parseInt id))
                      (nextObj s)))
             (set_nextObj S s))
  ∧ (∀ a r id, result_of a = Some r → activityId_of a = Some id → id ≠ "" →
     lookup_completion (parseInt id) s = None →
     resolveActivity fuel a s
     = Throw (VErr (MkError ErrorC
                      ("No completion for taskSeq " +:+ num_to_string (parseInt id))
                      (nextObj s)))
             (set_nextObj S s))
  ∧ (∀ done r rest s1,
     resolveExternalDependencies fuel done s = Ok tt s1 →
     lookup_completion (dep_seq r) s1 = None →
     resolveExternalDependencies fuel (done ++ r :: rest) s
     = Throw (VErr (MkError ErrorC
                      ("No completion for taskSeq " +:+ num_to_string (dep_seq r))
                      (nextObj s1)))
             (set_nextObj S s1))
  ∧ (∀ st, completions (set_nextObj S st) = completions st).
Proof.
  repeat split.
  - intros a id Hid Hne Hnone. unfold fireTimer. rewrite Hid.
    rewrite (bind_Ok _ _ _ _ _ (idToSeq_Some id s Hne)).
    apply bind_Throw, consumeCompletion_missing, Hnone.
  - intros a r id Hr Hid Hne Hnone. unfold resolveActivity. rewrite Hr, Hid.
    rewrite (bind_Ok _ _ _ _ _ (idToSeq_Some id s Hne)).
    apply bind_Throw, consumeCompletion_missing, Hnone.
  - intros done r rest s1 Hdone Hnone.
    rewrite resolveExternalDependencies_app.
    rewrite (bind_Ok _ _ _ _ _ Hdone). simpl.
    apply bind_Throw, consumeCompletion_missing, Hnone.
Qed.

(** C3: [resolveActivity] consumes the completion recorded under the activity
    id; a completed result is decoded and given to [resolve], unless it
    decodes to [undefined], in which case [reject] gets "Failed to convert
    from payload"; a failed result gives [reject] an error with the failure
    message; a canceled result calls the [completeCancel] of the completion's
    scope, and of what that call throws only a [CancellationError] is
    swallowed. *)
Theorem resolveActivity_spec (fuel : nat) (a : IResolveActivity) (s : State)
    (r : ActivityResult) (id : string) (c : Completion) :
  result_of a = Some r →
  activityId_of a = Some id → id ≠ "" →
  lookup_completion (parseInt id) s = Some c →
  let s1 := delete_completion (parseInt id) s in
  lookup_completion (parseInt id) s1 = None
  ∧ (∀ succ, completed_of r = Some succ →
       let v := match success_result succ with
                | Some payload => fromPayload payload
                | None => VUndefined
                end in
       (v ≠ VUndefined →
          resolveActivity fuel a s = (_ <- apply fuel (resolve c) [v] ;; ret []) s1)
       ∧ (v = VUndefined →
          resolveActivity fuel a s
          = (_ <- apply fuel (reject c)
                    [VErr (MkError ErrorC "Failed to convert from payload" (nextObj s))] ;;
             ret []) (set_nextObj S s1)))
  ∧ (∀ f, completed_of r = None → failed_of r = Some f →
       resolveActivity fuel a s
       = (_ <- apply fuel (reject c)
                 [VErr (MkError ErrorC (default "" (failure_of f ≫= failure_message))
                          (nextObj s))] ;;
          ret []) (set_nextObj S s1))
  ∧ (completed_of r = None → failed_of r = None → canceled_of r = Some tt →
       let err := MkError (CancellationErrorC Internal) "Activity cancelled" (nextObj s) in
       match apply fuel (completeCancel (scope c)) [VErr err] (set_nextObj S s1) with
       | Ok _ s' => resolveActivity fuel a s = Ok [] s'
       | Throw e s' =>
           resolveActivity fuel a s
           = if instanceof_CancellationError e then Ok [] s' else Throw e s'
       | Diverge => resolveActivity fuel a s = Diverge
       end).
Proof.
  intros Hr Hid Hne Hc s1.
  assert (Hstart : ∀ k : Completion → M (list (Promise Val)),
            (seq <- idToSeq (Some id) ;; c <- consumeCompletion seq ;; k c) s = k c s1).
  { intros k. rewrite (bind_Ok _ _ _ _ _ (idToSeq_Some id s Hne)).
    apply bind_Ok, consumeCompletion_found, Hc. }
  assert (Hobj : nextObj s1 = nextObj s).
  { subst s1. destruct (parseInt id); reflexivity. }
  split; [apply lookup_delete_completion |].
  unfold resolveActivity. rewrite Hr, Hid, Hstart.
  split; [| split].
  - intros succ Hsucc. rewrite Hsucc. split; intros Hv.
    + destruct (strict_eq _ VUndefined) eqn:E; [| reflexivity].
      apply strict_eq_undefined in E. contradiction.
    + rewrite Hv. run_engine. rewrite Hobj. reflexivity.
  - intros f Hnone Hf. rewrite Hnone, Hf. run_engine. rewrite Hobj. reflexivity.
  - intros Hnone Hnf Hcan. rewrite Hnone, Hnf, Hcan. run_engine. rewrite Hobj.
    destruct (apply fuel (completeCancel (scope c)) _ (set_nextObj S s1))
      as [x s' | e s' |]; try reflexivity.
    destruct (instanceof_CancellationError e); reflexivity.
Qed.

End Resolution.

Section Activation.
Context {host : Host}.

(** C1: on a completed workflow, [activate] skips a job that is not a query:
    it returns [processed = false] and the drained pending-external buffer,
    spawns nothing, and changes nothing else but the clock and the replay
    flag; a [queryWorkflow] job is handed to the activator as on a running
    workflow. *)
Theorem activate_completed (fuel : nat) (bytes : list Z) (jobIndex : nat) (s : State)
    (activation : WFActivation) (job : WFActivationJob) (v : JobVariant) (i : WorkflowInfo) :
  decodeDelimited bytes = inr activation →
  act_jobs activation !! jobIndex = Some job →
  variant job = Some v →
  variant_set v = true →
  info s = Some i →
  completed s = true →
  let s0 := set_info
              (fmap (fun i => {| runId := runId i;
                                 isReplaying := default false (act_isReplaying activation) |}))
              (set_now (tsToMs (act_timestamp activation)) s) in
  (is_queryWorkflow v = false →
     activate fuel bytes jobIndex s
     = Ok ({| processed := false; pendingExternalCalls_of := pendingExternalCalls s |}, [])
          (set_pendingExternalCalls (fun _ => []) s0))
  ∧ (∀ q, v = QueryWorkflowJob q →
     activate fuel bytes jobIndex s
     = (spawned <- queryWorkflow q ;;
        calls <- getAndResetPendingExternalCalls ;;
        ret ({| processed := true; pendingExternalCalls_of := calls |}, spawned)) s0).
Proof.
  intros Hdec Hjob Hvar Hset Hinfo Hdone s0.
  assert (Hpre : ∀ k : JobVariant → M (ActivationJobResult * list (Promise Val)),
            activate fuel bytes jobIndex s
            = (if completed s0 && negb (is_queryWorkflow v) then
                 calls <- getAndResetPendingExternalCalls ;;
                 ret ({| processed := false; pendingExternalCalls_of := calls |}, [])
               else
                 spawned <- dispatch fuel v ;;
                 calls <- getAndResetPendingExternalCalls ;;
                 ret ({| processed := true; pendingExternalCalls_of := calls |}, spawned)) s0).
  { intros _. unfold activate. rewrite Hdec. run_engine.
    rewrite Hinfo, Hjob, Hvar, Hset. reflexivity. }
  specialize (Hpre (fun _ => ret (Build_ActivationJobResult [] false, []))).
  assert (Hdone0 : completed s0 = true) by exact Hdone.
  rewrite Hpre, Hdone0. split.
  - intros Hq. rewrite Hq. simpl.
    rewrite (bind_Ok _ _ _ _ _ (getAndResetPendingExternalCalls_eq s0)). reflexivity.
  - intros q ->. reflexivity.
Qed.

End Activation.

Section Cancellation.
Context {host : Host}.

(** With [() => undefined] for [reject], the loop body swallows whatever the
    child throws. *)
Lemma visit_root (fuel : nat) (err : Val) (child : Scope) (s : State) :
  visit (apply (S fuel)) CompleteCancel FnIgnore err child s
  = swallow (apply (S fuel) (completeCancel child) [err]) s.
Proof.
  unfold visit, swallow, try_catch, bind. simpl scope_method.
  destruct (apply (S fuel) (completeCancel child) [err] s) as [r s' | e s' |];
    try reflexivity.
  destruct (strict_eq e err); reflexivity.
Qed.

(** The loop over the live set visits the members of the set in order, as long
    as visiting a child leaves the entries behind it in place. *)
Lemma forOfChildren_visit_all (call : Fn → list Val → M Returned)
    (method : CancelMethod) (reject : Fn) (err : Val) (a : nat) (es : ScopeSet) :
  (∀ j child st st',
     es !! j = Some (Some child) →
     drop j (heap_entries a st) = drop j es →
     visit call method reject err child st = Ok tt st' →
     drop (S j) (heap_entries a st') = drop (S j) es) →
  ∀ (rest : ScopeSet) (i : nat) (st : State) (fuel : nat),
    drop i es = rest →
    drop i (heap_entries a st) = rest →
    (length rest < fuel)%nat →
    forOfChildren call fuel method reject err a i st
    = visit_all (visit call method reject err) (set_members rest) st.
Proof.
  intros Hframe rest. induction rest as [| x rest IH]; intros i st fuel Hes Hst Hfuel.
  - destruct fuel as [| fuel]; [simpl in Hfuel; lia |].
    simpl. unfold bind at 1, gets.
    assert (heap_entries a st !! i = None) as ->; [| reflexivity].
    apply lookup_ge_None. apply drop_nil_inv in Hst. lia.
  - destruct fuel as [| fuel]; [simpl in Hfuel; lia |]. simpl in Hfuel.
    assert (Hx : heap_entries a st !! i = Some x).
    { pose proof (lookup_drop (heap_entries a st) i 0) as H.
      rewrite Hst, Nat.add_0_r in H. symmetry. exact H. }
    assert (Hx' : es !! i = Some x).
    { pose proof (lookup_drop es i 0) as H.
      rewrite Hes, Nat.add_0_r in H. symmetry. exact H. }
    assert (Hes' : drop (S i) es = rest).
    { rewrite (drop_S _ _ _ Hx') in Hes. congruence. }
    simpl. unfold bind at 1, gets. rewrite Hx.
    destruct x as [child |].
    + simpl. unfold bind at 1 2.
      destruct (visit call method reject err child st) as [[] st' | e st' |] eqn:Hv;
        try reflexivity.
      apply IH; [exact Hes' | | lia].
      rewrite <- Hes'. apply (Hframe i child st st' Hx'); [congruence | exact Hv].
    + simpl. apply IH; [exact Hes' | | lia].
      rewrite (drop_S _ _ _ Hx) in Hst. congruence.
Qed.

(** [propagateCancellation(method)(reject, scope)] on a scope with a child
    set: every member is visited, then [reject(err)] is called. *)
Lemma propagateCancellation_visits (fuel : nat) (method : CancelMethod) (reject : Fn)
    (sc : nat) (err : Val) (s : State) (a : nat) (es : ScopeSet) :
  childScopes s !! sc = Some a →
  setHeap s !! a = Some es →
  (length es < fuel)%nat →
  (∀ j child st st',
     es !! j = Some (Some child) →
     drop j (heap_entries a st) = drop j es →
     visit (apply fuel) method reject err child st = Ok tt st' →
     drop (S j) (heap_entries a st') = drop (S j) es) →
  apply (S fuel) (FnPropagate method reject sc) [err] s
  = (visit_all (visit (apply fuel) method reject err) (set_members es) ;;
     _ <- apply fuel reject [err] ;;
     ret (RVal VUndefined)) s.
Proof.
  intros Ha Hes Hfuel Hframe.
  change (apply (S fuel) (FnPropagate method reject sc) [err] s)
    with ((entry <- gets (fun s => childScopes s !! sc) ;;
           match entry with
           | None => throw_new ErrorC "Expected to find child scope mapping, got undefined"
           | Some children =>
               forOfChildren (apply fuel) fuel method reject err children 0%nat ;;
               _ <- apply fuel reject [err] ;;
               ret (RVal VUndefined)
           end) s).
  unfold bind at 1, gets. rewrite Ha.
  unfold bind at 1 3.
  assert (Hheap : drop 0 (heap_entries a s) = es).
  { unfold heap_entries. rewrite Hes. reflexivity. }
  rewrite (forOfChildren_visit_all _ _ _ _ a es Hframe es 0 s fuel eq_refl Hheap Hfuel).
  reflexivity.
Qed.

(** C10: the cancellation function that [propagateCancellation] makes for a
    scope with no entry in [childScopes] throws a plain [Error] and does not
    call [reject]; for the root scope this makes a [cancelWorkflow] job fail. *)
Theorem propagate_without_child_mapping (fuel : nat) (method : CancelMethod) (reject : Fn)
    (sc : nat) (args : list Val) (s : State) :
  childScopes s !! sc = None →
  apply (S fuel) (FnPropagate method reject sc) args s
  = Throw (VErr (MkError ErrorC "Expected to find child scope mapping, got undefined"
                   (nextObj s)))
          (set_nextObj S s)
  ∧ (sc = idx rootScope →
     dispatch (S fuel) CancelWorkflowJob s
     = Throw (VErr (MkError ErrorC "Expected to find child scope mapping, got undefined"
                      (S (nextObj s))))
             (set_nextObj S (set_nextObj S (set_cancelled true s)))).
Proof.
  intros Hnone. split.
  - simpl. run_engine. rewrite Hnone. reflexivity.
  - intros ->. simpl in Hnone. simpl. unfold cancelWorkflow. do 2 run_engine.
    rewrite Hnone. reflexivity.
Qed.

(** C4: [cancelWorkflow] sets [cancelled] and calls [rootScopeCancel] with a
    fresh external [CancellationError]; when the root has a child set, the
    [completeCancel] of every child in it is called with that error, in order,
    and what a child throws is swallowed (the entries behind a child being left
    in place while it is visited).  The root's [requestCancel] always throws. *)
Theorem cancelWorkflow_spec (fuel : nat) (s : State) :
  let err := MkError (CancellationErrorC External) "Workflow cancelled" (nextObj s) in
  let s1 := set_nextObj S (set_cancelled true s) in
  cancelled s1 = true
  ∧ cancelWorkflow fuel s = (_ <- apply fuel rootScopeCancel [VErr err] ;; ret []) s1
  ∧ (∀ e st, apply (S fuel) (completeCancel rootScope) [e] st
             = (_ <- apply fuel rootScopeCancel [e] ;; ret (RVal VUndefined)) st)
  ∧ (∀ args st,
       apply (S fuel) (requestCancel rootScope) args st
       = Throw (VErr (MkError ErrorC "Root scope cannot be cancelled from within a workflow"
                        (nextObj st)))
               (set_nextObj S st))
  ∧ (∀ a es,
       childScopes s !! idx rootScope = Some a →
       setHeap s !! a = Some es →
       (length es ≤ fuel)%nat →
       (∀ j child st st',
          es !! j = Some (Some child) →
          drop j (heap_entries a st) = drop j es →
          swallow (apply (S fuel) (completeCancel child) [VErr err]) st = Ok tt st' →
          drop (S j) (heap_entries a st') = drop (S j) es) →
       cancelWorkflow (S (S fuel)) s
       = (visit_all (fun child => swallow (apply (S fuel) (completeCancel child) [VErr err]))
                    (set_members es) ;;
          ret []) s1).
Proof.
  intros err s1. repeat split.
  intros a es Ha Hes Hfuel Hframe.
  assert (Hroot : ∀ l st,
            visit_all (visit (apply (S fuel)) CompleteCancel FnIgnore (VErr err)) l st
            = visit_all (fun child =>
                           swallow (apply (S fuel) (completeCancel child) [VErr err])) l st).
  { induction l as [| c l IHl]; intros st; [reflexivity |].
    cbn [visit_all]. unfold bind. rewrite visit_root.
    destruct (swallow _ st); try reflexivity. apply IHl. }
  change (cancelWorkflow (S (S fuel)) s)
    with ((_ <- apply (S (S fuel)) rootScopeCancel [VErr err] ;;
           ret (@nil (Promise Val))) s1).
  unfold bind at 1. unfold rootScopeCancel.
  assert (Hframe' : ∀ j child st st',
            es !! j = Some (Some child) →
            drop j (heap_entries a st) = drop j es →
            visit (apply (S fuel)) CompleteCancel FnIgnore (VErr err) child st = Ok tt st' →
            drop (S j) (heap_entries a st') = drop (S j) es).
  { intros j child st st' Hj Hdrop Hv. rewrite visit_root in Hv. eauto. }
  rewrite (propagateCancellation_visits (S fuel) CompleteCancel FnIgnore (idx rootScope)
             (VErr err) s1 a es Ha Hes (proj2 (Nat.lt_succ_r _ _) Hfuel) Hframe').
  unfold bind. rewrite Hroot.
  destruct (visit_all _ (set_members es) s1); reflexivity.
Qed.

End Cancellation.

Section Start.
Context {host : Host}.

Lemma drive_app {A} (env1 env2 : list State) (p : Promise A) (s : State) :
  drive (env1 ++ env2) p s
  = match drive env1 p s with
    | Some (p', s') => drive env2 p' s'
    | None => None
    end.
Proof.
  revert p s. induction env1 as [| e env1 IH]; intros p s; [reflexivity |].
  simpl. destruct p as [| | resume]; try reflexivity.
  destruct (resume e); try reflexivity. apply IH.
Qed.

Lemma drive_then {A B} (f : A → M B) (env : list State) (p p' : Promise A) (s s' : State) :
  drive env p s = Some (p', s') →
  drive env (promise_then p f) s = Some (promise_then p' f, s').
Proof.
  revert p s. induction env as [| e env IH]; intros p s H.
  - simpl in *. congruence.
  - destruct p as [| | resume]; simpl in H; try discriminate.
    simpl. destruct (resume e) as [p1 s1 | |]; try discriminate.
    apply IH, H.
Qed.

Lemma drive_catch {A} (g : Val → M A) (env : list State) (p p' : Promise A) (s s' : State) :
  drive env p s = Some (p', s') →
  drive env (promise_catch p g) s = Some (promise_catch p' g, s').
Proof.
  revert p s. induction env as [| e env IH]; intros p s H.
  - simpl in *. congruence.
  - destruct p as [| | resume]; simpl in H; try discriminate.
    simpl. destruct (resume e) as [p1 s1 | |]; try discriminate.
    apply IH, H.
Qed.

(** C8: [startWorkflow] calls [workflow.main] through the inbound [execute]
    interceptors and chains [completeWorkflow] and [failWorkflow] on the
    promise.  When the promise is fulfilled, the next microtask appends
    [completeWorkflowExecution] with the encoded result; when it is rejected,
    [failWorkflowExecution] with the converted failure is appended; either way
    [completed] becomes true. *)
Theorem startWorkflow_spec (a : IStartWorkflow) (s s1 : State) (p : Promise Val) :
  let input := {| in_headers := default [] (sw_headers a);
                  in_args := arrayFromPayloads (sw_arguments a);
                  in_signalName := None |} in
  composeInterceptors (inbound (interceptors s)) Execute run_main input s = Ok p s1 →
  startWorkflow a s = Ok [completion_chain p] s1
  ∧ (∀ i rest inp,
       composeInterceptors (i :: rest) Execute run_main inp
       = intercept i Execute inp (composeInterceptors rest Execute run_main))
  ∧ composeInterceptors [] Execute run_main = run_main
  ∧ (∀ w st, workflow st = Some w →
       run_main input st = async_call (main w) (arrayFromPayloads (sw_arguments a)) st)
  ∧ (∀ env v s2 e,
       drive env p s1 = Some (Fulfilled v, s2) →
       ∃ p' s', drive (env ++ [e]) (completion_chain p) s1 = Some (p', s')
                ∧ commands s' = commands e ++ [CompleteWorkflowExecution (toPayload v)]
                ∧ completed s' = true)
  ∧ (∀ env err s2 e1 e2,
       drive env p s1 = Some (Rejected err, s2) →
       ∃ p' s', drive (env ++ [e1; e2]) (completion_chain p) s1 = Some (p', s')
                ∧ commands s' = commands e2 ++ [FailWorkflowExecution (errorToUserCodeFailure err)]
                ∧ completed s' = true).
Proof.
  intros input Hexec. split; [| split; [reflexivity |]; split; [reflexivity |]; split; [| split]].
  - unfold startWorkflow. unfold bind at 1, gets. fold input.
    rewrite (bind_Ok _ _ _ _ _ Hexec). reflexivity.
  - intros w st Hw. unfold run_main, bind, gets. rewrite Hw. reflexivity.
  - intros env v s2 e Hp.
    unfold completion_chain. rewrite drive_app.
    rewrite (drive_catch _ _ _ _ _ _ (drive_then completeWorkflow _ _ _ _ _ Hp)).
    simpl. eexists _, _. split; [reflexivity |]. split; reflexivity.
  - intros env err s2 e1 e2 Hp.
    unfold completion_chain. rewrite drive_app.
    rewrite (drive_catch _ _ _ _ _ _ (drive_then completeWorkflow _ _ _ _ _ Hp)).
    simpl. eexists _, _. split; [reflexivity |]. split; reflexivity.
Qed.

End Start.

(** * The statements above, run on the test host *)

Section Runs.
#[local] Existing Instance test_host.

Lemma setTimeout_spec_witness :
  last (scopeStack initial_state) = Some rootScope
  ∧ setTimeout (FnExt 0) (Int 100) [VStr "x"] initial_state
    = Ok 0 (set_commands
              (fun c => c ++ [StartTimer "0" (MkTimestamp 0 100000000)])
              (set_completions
                 <[0 := {| resolve := FnTimerResolve (FnExt 0) [VStr "x"];
                           reject := FnIgnore; scope := rootScope |}]>
                 (set_nextSeq (fun n => n + 1) initial_state))).
Proof.
  split; [reflexivity |].
  exact (proj1 (setTimeout_spec (FnExt 0) (Int 100) [VStr "x"] initial_state rootScope eq_refl)).
Defined.

Lemma clearTimeout_unknown_handle_witness :
  lookup_completion (Int 7) initial_state = None
  ∧ lookup_completion (Int 1000000000000000000000) initial_state = None
  ∧ (∃ s', clearTimeout (Int 7) initial_state = Ok tt s'
           ∧ nextSeq s' = 1
           ∧ commands s' = [CancelTimer "7"]
           ∧ completions s' = ∅)
  ∧ (∃ s', clearTimeout (Int 1000000000000000000000) initial_state = Ok tt s'
           ∧ nextSeq s' = 1
           ∧ commands s' = [CancelTimer "1e+21"]
           ∧ completions s' = ∅).
Proof.
  split; [reflexivity |]. split; [reflexivity |]. split.
  - destruct (clearTimeout_unknown_handle (Int 7) initial_state eq_refl)
      as (s' & Hrun & Hseq & _ & Hcompl & Hid & _).
    exists s'. split; [exact Hrun |]. split; [exact Hseq |].
    split; [| exact Hcompl].
    apply (Hid 7 eq_refl). vm_compute. discriminate.
  - destruct (clearTimeout_unknown_handle (Int (10 ^ 21)) initial_state eq_refl)
      as (s' & Hrun & Hseq & _ & Hcompl & _ & Hid).
    exists s'. split; [exact Hrun |]. split; [exact Hseq |].
    split; [| exact Hcompl].
    apply Hid. reflexivity.
Defined.

(** The handle [10^21] is cancelled under the id [1e+21], which is not its
    decimal string. *)
Lemma clearTimeout_id_not_decimal :
  ∃ s', clearTimeout (Int 1000000000000000000000) initial_state = Ok tt s'
        ∧ commands s' = [CancelTimer "1e+21"]
        ∧ commands s' ≠ [CancelTimer "1000000000000000000000"].
Proof.
  eexists. split; [reflexivity |].
  split; [vm_compute; reflexivity |].
  vm_compute. discriminate.
Qed.

Lemma activate_completed_witness :
  decodeDelimited [1] = inr test_activation
  ∧ act_jobs test_activation !! 0%nat
    = Some {| variant := Some (FireTimerJob {| timerId_of := Some "0" |}) |}
  ∧ info test_completed_state = Some (MkInfo "run-1" false)
  ∧ completed test_completed_state = true
  ∧ activate 1 [1] 0 test_completed_state
    = Ok ({| processed := false;
             pendingExternalCalls_of := [MkExternalCall "logger" "info" [VStr "bye"] None] |},
          [])
         (set_pendingExternalCalls (fun _ => [])
            (set_info (fun _ => Some (MkInfo "run-1" true))
               (set_now 5000 test_completed_state))).
Proof.
  split; [reflexivity |]. split; [reflexivity |].
  split; [reflexivity |]. split; [reflexivity |].
  exact (proj1 (activate_completed 1 [1] 0 test_completed_state test_activation
                  {| variant := Some (FireTimerJob {| timerId_of := Some "0" |}) |}
                  (FireTimerJob {| timerId_of := Some "0" |}) (MkInfo "run-1" false)
                  eq_refl eq_refl eq_refl eq_refl eq_refl eq_refl) eq_refl).
Defined.

(** A query on the completed workflow is answered. *)
Example query_on_completed_workflow :
  ∃ r s', activate 1 [1] 1 test_completed_state = Ok (r, []) s'
          ∧ processed r = true
          ∧ commands s' = [RespondToQuery (Succeeded (MkPayload [] "value"))].
Proof. eexists _, _. split; [vm_compute; reflexivity |]. split; reflexivity. Qed.

Lemma missing_completion_throws_Error_witness :
  lookup_completion (parseInt "7") initial_state = None
  ∧ fireTimer 1 {| timerId_of := Some "7" |} initial_state
    = Throw (VErr (MkError ErrorC "No completion for taskSeq 7" 0))
            (set_nextObj S initial_state).
Proof.
  split; [reflexivity |].
  refine (proj1 (missing_completion_throws_Error 1 initial_state)
                {| timerId_of := Some "7" |} "7" eq_refl _ eq_refl).
  discriminate.
Defined.

(** C2 as the spec has it fails: the error thrown for a missing completion is
    not an [IllegalStateError]. *)
Lemma missing_completion_not_IllegalState :
  lookup_completion (parseInt "7") initial_state = None
  ∧ ¬ ∃ e s', fireTimer 1 {| timerId_of := Some "7" |} initial_state = Throw (VErr e) s'
              ∧ err_class e = IllegalStateErrorC.
Proof.
  split; [reflexivity |].
  intros (e & s' & Hthrow & Hclass).
  vm_compute in Hthrow. injection Hthrow as <- _.
  discriminate Hclass.
Qed.

Lemma resolveActivity_spec_witness :
  result_of test_resolveActivity
  = Some {| completed_of := Some {| success_result := Some (MkPayload [] "ok") |};
            failed_of := None; canceled_of := None |}
  ∧ activityId_of test_resolveActivity = Some "1"
  ∧ "1" ≠ ""
  ∧ lookup_completion (parseInt "1") test_activity_state
    = Some {| resolve := FnExt 2; reject := FnExt 0; scope := rootScope |}
  ∧ resolveActivity 1 test_resolveActivity test_activity_state
    = (_ <- apply 1 (FnExt 2) [VStr "ok"] ;; ret [])
        (delete_completion (Int 1) test_activity_state).
Proof.
  split; [reflexivity |]. split; [reflexivity |]. split; [discriminate |].
  split; [reflexivity |].
  refine (proj1 (proj1 (proj2
            (resolveActivity_spec 1 test_resolveActivity test_activity_state _ "1"
               {| resolve := FnExt 2; reject := FnExt 0; scope := rootScope |}
               eq_refl eq_refl _ eq_refl))
            {| success_result := Some (MkPayload [] "ok") |} eq_refl) _);
    discriminate.
Defined.

Lemma propagate_without_child_mapping_witness :
  childScopes initial_state !! idx rootScope = None
  ∧ dispatch 1 CancelWorkflowJob initial_state
    = Throw (VErr (MkError ErrorC "Expected to find child scope mapping, got undefined" 1))
            (set_nextObj S (set_nextObj S (set_cancelled true initial_state))).
Proof.
  split; [reflexivity |].
  exact (proj2 (propagate_without_child_mapping 0 CompleteCancel FnIgnore (idx rootScope)
                  [] initial_state eq_refl) eq_refl).
Defined.

(** A workflow opens a child scope and binds a promise to it; when that
    promise resolves, the hook empties the root's child set and drops its entry,
    and a [cancelWorkflow] job then fails. *)
Example cancel_after_children_resolved :
  let child := test_child 1 0 in
  let opened := state_of ((_ <- pushScope child ;;
                           promiseHook HookInit 10 None ;;
                           popScope) initial_state) initial_state in
  let resolved := state_of (promiseHook HookResolve 10 None opened) opened in
  (∃ a, childScopes opened !! idx rootScope = Some a
        ∧ setHeap opened !! a = Some [Some child])
  ∧ childScopes resolved !! idx rootScope = None
  ∧ ∃ e s', dispatch 2 CancelWorkflowJob resolved = Throw (VErr e) s'
            ∧ err_class e = ErrorC
            ∧ err_message e = "Expected to find child scope mapping, got undefined".
Proof.
  split; [exists 0%nat; split; reflexivity |].
  split; [reflexivity |].
  eexists _, _. split; [vm_compute; reflexivity |]. split; reflexivity.
Qed.

Lemma cancelWorkflow_spec_witness :
  childScopes test_tree_state !! idx rootScope = Some 0%nat
  ∧ setHeap test_tree_state !! 0%nat
    = Some [Some (test_child 1 2); None; Some (test_child 3 1)]
  ∧ cancelWorkflow 5 test_tree_state
    = (visit_all
         (fun child =>
            swallow (apply 4 (completeCancel child)
                       [VErr (MkError (CancellationErrorC External) "Workflow cancelled" 1)]))
         [test_child 1 2; test_child 3 1] ;;
       ret [])
        (set_nextObj S (set_cancelled true test_tree_state)).
Proof.
  split; [reflexivity |]. split; [reflexivity |].
  refine (proj2 (proj2 (proj2 (proj2 (cancelWorkflow_spec 3 test_tree_state))))
            0%nat [Some (test_child 1 2); None; Some (test_child 3 1)]
            eq_refl eq_refl _ _).
  - simpl. lia.
  - intros j child st st' Hj Hdrop Hrun.
    destruct j as [| [| [| j]]]; simpl in Hj; try discriminate;
      injection Hj as <-; unfold swallow, try_catch, bind in Hrun; simpl in Hrun;
      injection Hrun as <-; simpl in Hdrop |- *.
    + change (heap_entries 0 (set_commands _ st)) with (drop 0 (heap_entries 0 st)).
      rewrite Hdrop. reflexivity.
    + change (drop 3 (heap_entries 0 st)) with (drop (2 + 1) (heap_entries 0 st)).
      rewrite <- drop_drop, Hdrop. reflexivity.
Defined.

(** On that tree both children are reached: the first leaves its trace, what
    the second throws is swallowed. *)
Example cancelWorkflow_on_tree :
  ∃ s', cancelWorkflow 5 test_tree_state = Ok [] s'
        ∧ cancelled s' = true
        ∧ commands s' = [CancelTimer "seen"].
Proof. eexists. split; [vm_compute; reflexivity |]. split; reflexivity. Qed.

Lemma startWorkflow_spec_witness :
  composeInterceptors (inbound (interceptors test_completed_state)) Execute run_main
    {| in_headers := []; in_args := []; in_signalName := None |} test_completed_state
  = Ok (Pending (fun s => Ok (Fulfilled (VStr "done")) s)) test_completed_state
  ∧ drive [initial_state] (Pending (fun s => Ok (Fulfilled (VStr "done")) s))
      test_completed_state
    = Some (Fulfilled (VStr "done"), initial_state)
  ∧ startWorkflow {| sw_headers := None; sw_arguments := None |} test_completed_state
    = Ok [completion_chain (Pending (fun s => Ok (Fulfilled (VStr "done")) s))]
         test_completed_state
  ∧ ∃ p' s', drive ([initial_state] ++ [initial_state])
               (completion_chain (Pending (fun s => Ok (Fulfilled (VStr "done")) s)))
               test_completed_state
             = Some (p', s')
             ∧ commands s'
               = commands initial_state ++ [CompleteWorkflowExecution (toPayload (VStr "done"))]
             ∧ completed s' = true.
Proof.
  split; [reflexivity |]. split; [reflexivity |].
  pose proof (startWorkflow_spec {| sw_headers := None; sw_arguments := None |}
                test_completed_state test_completed_state
                (Pending (fun s => Ok (Fulfilled (VStr "done")) s)) eq_refl)
    as (Hstart & _ & _ & _ & Hok & _).
  split; [exact Hstart |].
  exact (Hok [initial_state] (VStr "done") initial_state initial_state eq_refl).
Defined.

(** [startWorkflow] on the test workflow, whose [main] is fulfilled at its
    first resumption: the chain appends the completion command. *)
Example startWorkflow_run :
  ∃ p s1 p' s',
    startWorkflow {| sw_headers := None; sw_arguments := None |} test_completed_state
    = Ok [p] s1
    ∧ drive [s1; s1] p s1 = Some (p', s')
    ∧ commands s' = [CompleteWorkflowExecution (MkPayload [] "done")]
    ∧ completed s' = true.
Proof.
  eexists _, _, _, _. split; [vm_compute; reflexivity |].
  split; [vm_compute; reflexivity |]. split; reflexivity.
Qed.

End Runs.

(** * Further properties *)

Lemma pretty_N_go_nonempty (x : N) (s : string) : s ≠ "" → pretty_N_go x s ≠ "".
Proof.
  revert s. induction (N.lt_wf_0 x) as [x _ IH]; intros s Hs.
  destruct (decide (x = 0)%N) as [-> | Hx].
  - rewrite pretty_N_go_0. exact Hs.
  - rewrite pretty_N_go_step by lia. apply IH; [| discriminate].
    apply N.div_lt; lia.
Qed.

Lemma pretty_Z_nonempty (z : Z) : pretty z ≠ "".
Proof.
  assert (Hpos : ∀ p : positive, pretty p ≠ "").
  { intros p. unfold pretty, pretty_positive, pretty, pretty_N.
    destruct (decide (N.pos p = 0)%N); [discriminate |].
    rewrite pretty_N_go_step by lia. apply pretty_N_go_nonempty. discriminate. }
  destruct z as [| p | p]; unfold pretty, pretty_Z.
  - discriminate.
  - apply Hpos.
  - discriminate.
Qed.

Section TimerRoundTrips.
Context {host : Host}.

Lemma setTimeout_run (cb : Fn) (ms : Num) (args : list Val) (s : State) (sc : Scope) :
  last (scopeStack s) = Some sc →
  setTimeout cb ms args s
  = Ok (nextSeq s)
       (set_commands
          (fun c => c ++ [StartTimer (pretty (nextSeq s)) (msToTs ms)])
          (set_completions
             <[nextSeq s := {| resolve := FnTimerResolve cb args;
                               reject := FnIgnore; scope := sc |}]>
             (set_nextSeq (fun n => n + 1) s))).
Proof.
  intros Htop. unfold setTimeout, post_increment_nextSeq, currentScope. run_engine.
  rewrite Htop. reflexivity.
Qed.

Lemma fireTimer_run (fuel : nat) (id : string) (s : State) (c : Completion) :
  id ≠ "" →
  lookup_completion (parseInt id) s = Some c →
  fireTimer fuel {| timerId_of := Some id |} s
  = (_ <- apply fuel (resolve c) [VUndefined] ;; ret [])
      (delete_completion (parseInt id) s).
Proof.
  intros Hne Hc. unfold fireTimer. simpl timerId_of.
  rewrite (bind_Ok _ _ _ _ _ (idToSeq_Some id s Hne)).
  rewrite (bind_Ok _ _ _ _ _ (consumeCompletion_found _ _ _ Hc)).
  reflexivity.
Qed.

(** X1: a timer started with [setTimeout] and fired under the id of its
    [startTimer] command runs [cb(...args)], with its completion removed
    first. *)
Theorem setTimeout_then_fireTimer (fuel : nat) (cb : Fn) (ms : Num) (args : list Val)
    (s : State) (sc : Scope) :
  last (scopeStack s) = Some sc →
  parseInt (pretty (nextSeq s)) = Int (nextSeq s) →
  ∃ s1 s2,
    setTimeout cb ms args s = Ok (nextSeq s) s1
    ∧ last (commands s1) = Some (StartTimer (pretty (nextSeq s)) (msToTs ms))
    ∧ fireTimer (S fuel) {| timerId_of := Some (pretty (nextSeq s)) |} s1
      = (_ <- apply fuel cb args ;; ret []) s2
    ∧ completions s2 = delete (nextSeq s) (completions s)
    ∧ commands s2 = commands s1.
Proof.
  intros Htop Hparse. eexists _, _.
  split; [apply (setTimeout_run _ _ _ _ _ Htop) |].
  split; [simpl; apply last_snoc |].
  split.
  - rewrite (fireTimer_run _ _ _
               {| resolve := FnTimerResolve cb args; reject := FnIgnore; scope := sc |}).
    + rewrite Hparse. reflexivity.
    + apply pretty_Z_nonempty.
    + rewrite Hparse. simpl. apply lookup_insert_eq.
  - split; [| reflexivity]. simpl. apply delete_insert_eq.
Qed.

(** X2: [clearTimeout] of the handle that [setTimeout] returned removes the
    timer's completion, leaves [startTimer] and [cancelTimer] with one id in the
    command buffer and has used two sequence numbers; a [fireTimer] for that id
    then fails.  The counter is within the integers that print as their
    decimal digits. *)
Theorem setTimeout_then_clearTimeout (fuel : nat) (cb : Fn) (ms : Num) (args : list Val)
    (s : State) (sc : Scope) :
  last (scopeStack s) = Some sc →
  parseInt (pretty (nextSeq s)) = Int (nextSeq s) →
  Z.abs (nextSeq s) ≤ 2 ^ 53 →
  ∃ s1 s2 e s3,
    setTimeout cb ms args s = Ok (nextSeq s) s1
    ∧ clearTimeout (Int (nextSeq s)) s1 = Ok tt s2
    ∧ completions s2 = delete (nextSeq s) (completions s)
    ∧ commands s2 = commands s ++ [StartTimer (pretty (nextSeq s)) (msToTs ms);
                                   CancelTimer (pretty (nextSeq s))]
    ∧ nextSeq s2 = nextSeq s + 2
    ∧ fireTimer fuel {| timerId_of := Some (pretty (nextSeq s)) |} s2 = Throw (VErr e) s3
    ∧ err_class e = ErrorC
    ∧ completions s3 = completions s2.
Proof.
  intros Htop Hparse Hsafe. eexists _, _, _, _.
  split; [apply (setTimeout_run _ _ _ _ _ Htop) |].
  split; [reflexivity |].
  split; [simpl; apply delete_insert_eq |].
  split.
  { unfold clearTimeout, post_increment_nextSeq, bind, gets, modify, ret. simpl.
    rewrite <- app_assoc. rewrite <- (num_to_string_safe _ Hsafe). reflexivity. }
  split; [simpl; lia |].
  split.
  { unfold fireTimer. simpl timerId_of.
    rewrite (bind_Ok _ _ _ _ _ (idToSeq_Some _ _ (pretty_Z_nonempty _))).
    apply bind_Throw. rewrite Hparse.
    apply consumeCompletion_missing. simpl. apply lookup_delete_eq. }
  split; reflexivity.
Qed.

(** X3: two successive [setTimeout] calls return consecutive sequence numbers,
    their timer ids differ, and both completions are in the table. *)
Theorem setTimeout_twice (cb1 cb2 : Fn) (ms1 ms2 : Num) (args1 args2 : list Val)
    (s : State) (sc : Scope) :
  last (scopeStack s) = Some sc →
  ∃ s1 s2,
    setTimeout cb1 ms1 args1 s = Ok (nextSeq s) s1
    ∧ setTimeout cb2 ms2 args2 s1 = Ok (nextSeq s + 1) s2
    ∧ pretty (nextSeq s) ≠ pretty (nextSeq s + 1)
    ∧ completions s2 !! nextSeq s
      = Some {| resolve := FnTimerResolve cb1 args1; reject := FnIgnore; scope := sc |}
    ∧ completions s2 !! (nextSeq s + 1)
      = Some {| resolve := FnTimerResolve cb2 args2; reject := FnIgnore; scope := sc |}
    ∧ commands s2 = commands s ++ [StartTimer (pretty (nextSeq s)) (msToTs ms1);
                                   StartTimer (pretty (nextSeq s + 1)) (msToTs ms2)].
Proof.
  intros Htop. eexists _, _.
  split; [apply (setTimeout_run _ _ _ _ _ Htop) |].
  split; [rewrite (setTimeout_run _ _ _ _ sc) by exact Htop; reflexivity |].
  split; [intros H; apply (inj pretty) in H; lia |].
  split; [simpl; rewrite lookup_insert_ne by lia; apply lookup_insert_eq |].
  split; [simpl; apply lookup_insert_eq |].
  simpl. rewrite <- app_assoc. reflexivity.
Qed.

(** X4: with an empty scope stack [setTimeout] throws "No scopes in stack";
    the sequence number is used up all the same, and neither a completion nor
    a command is left behind. *)
Theorem setTimeout_without_scope (cb : Fn) (ms : Num) (args : list Val) (s : State) :
  scopeStack s = [] →
  ∃ s',
    setTimeout cb ms args s
    = Throw (VErr (MkError ErrorC "No scopes in stack" (nextObj s))) s'
    ∧ nextSeq s' = nextSeq s + 1
    ∧ completions s' = completions s
    ∧ commands s' = commands s.
Proof.
  intros Hempty. eexists. split.
  { unfold setTimeout, post_increment_nextSeq, currentScope. run_engine.
    rewrite Hempty. reflexivity. }
  split; [| split]; reflexivity.
Qed.

End TimerRoundTrips.

Section ActivationEdges.
Context {host : Host}.

(** X5: what [activate] does with an input it cannot process.  A decoding
    error is passed on with the state untouched; an engine without workflow
    info throws [IllegalStateError], a job index outside the activation and a
    job without variant throw [TypeError], each after the clock has been set
    from the activation and with the pending buffer left alone. *)
Theorem activate_failures (fuel : nat) (bytes : list Z) (jobIndex : nat) (s : State) :
  (∀ e, decodeDelimited bytes = inl e → activate fuel bytes jobIndex s = Throw e s)
  ∧ (∀ a, decodeDelimited bytes = inr a → info s = None →
       activate fuel bytes jobIndex s
       = Throw (VErr (MkError IllegalStateErrorC "Workflow has not been initialized"
                        (nextObj s)))
               (set_nextObj S (set_now (tsToMs (act_timestamp a)) s)))
  ∧ (∀ a i, decodeDelimited bytes = inr a → info s = Some i →
       (act_jobs a !! jobIndex = None
        ∨ ∃ job, act_jobs a !! jobIndex = Some job ∧ variant job = None) →
       ∃ e s', activate fuel bytes jobIndex s = Throw (VErr e) s'
               ∧ err_class e = TypeErrorC
               ∧ now s' = Some (tsToMs (act_timestamp a))
               ∧ pendingExternalCalls s' = pendingExternalCalls s
               ∧ commands s' = commands s
               ∧ completions s' = completions s).
Proof.
  split; [| split].
  - intros e Hdec. unfold activate. rewrite Hdec. reflexivity.
  - intros a Hdec Hinfo. unfold activate. rewrite Hdec. run_engine.
    rewrite Hinfo. reflexivity.
  - intros a i Hdec Hinfo Hjob. unfold activate. rewrite Hdec. run_engine.
    rewrite Hinfo.
    destruct Hjob as [Hjob | (job & Hjob & Hvar)]; rewrite Hjob; [| rewrite Hvar];
      eexists _, _; (split; [reflexivity |]); repeat split.
Qed.

Lemma then_drain_Ok {A} (m : M A) (b : bool) (s0 s' : State) (r : ActivationJobResult)
    (spawned : A) :
  (x <- m ;;
   calls <- getAndResetPendingExternalCalls ;;
   ret ({| processed := b; pendingExternalCalls_of := calls |}, x)) s0
  = Ok (r, spawned) s' →
  pendingExternalCalls s' = [] ∧ processed r = b.
Proof.
  unfold bind at 1. destruct (m s0) as [x s1 | |]; try discriminate.
  rewrite (bind_Ok _ _ _ _ _ (getAndResetPendingExternalCalls_eq s1)).
  unfold ret. intros [= <- _ <-]. split; reflexivity.
Qed.

Lemma concludeActivation_run_drained (s : State) :
  pendingExternalCalls s = [] →
  concludeActivation s
  = Ok (ConclusionComplete
          (encodeDelimited {| wc_runId := runId <$> info s; wc_commands := commands s |}))
       (set_commands (fun _ => []) (set_pendingExternalCalls (fun _ => []) s)).
Proof.
  intros Hp. unfold concludeActivation.
  rewrite (bind_Ok _ _ _ _ _ (getAndResetPendingExternalCalls_eq s)), Hp. reflexivity.
Qed.

(** X6: whenever [activate] returns, the pending-external buffer is empty (its
    contents went into the result), so a [concludeActivation] that follows at
    once reports [complete], not [pending]. *)
Theorem activate_returns_drained (fuel : nat) (bytes : list Z) (jobIndex : nat)
    (s s' : State) (r : ActivationJobResult) (spawned : list (Promise Val)) :
  activate fuel bytes jobIndex s = Ok (r, spawned) s' →
  pendingExternalCalls s' = []
  ∧ (processed r = false → spawned = [])
  ∧ ∃ s'', concludeActivation s'
           = Ok (ConclusionComplete
                   (encodeDelimited {| wc_runId := runId <$> info s';
                                       wc_commands := commands s' |})) s''
           ∧ commands s'' = [].
Proof.
  intros Hact.
  assert (Hdrained : pendingExternalCalls s' = [] ∧ (processed r = false → spawned = [])).
  { revert Hact. unfold activate.
    destruct (decodeDelimited bytes) as [e | a]; [discriminate |].
    run_engine. destruct (info s) as [i |]; [| discriminate].
    destruct (act_jobs a !! jobIndex) as [job |]; [| discriminate].
    destruct (variant job) as [v |]; [| discriminate].
    destruct (variant_set v); simpl; [| discriminate].
    destruct (completed s && negb (is_queryWorkflow v)).
    - rewrite getAndResetPendingExternalCalls_eq.
      intros [= <- <- <-]. split; reflexivity.
    - intros H. destruct (then_drain_Ok _ true _ _ _ _ H) as [Hp Hr].
      split; [exact Hp |]. rewrite Hr. discriminate. }
  destruct Hdrained as [Hp Hs]. split; [exact Hp |]. split; [exact Hs |].
  eexists. rewrite concludeActivation_run_drained by exact Hp.
  split; reflexivity.
Qed.

Lemma concludeActivation_run (s : State) :
  concludeActivation s
  = let s0 := set_pendingExternalCalls (fun _ => []) s in
    match pendingExternalCalls s with
    | [] =>
        Ok (ConclusionComplete
              (encodeDelimited {| wc_runId := runId <$> info s;
                                  wc_commands := commands s |}))
           (set_commands (fun _ => []) s0)
    | calls => Ok (ConclusionPending calls) s0
    end.
Proof.
  unfold concludeActivation.
  rewrite (bind_Ok _ _ _ _ _ (getAndResetPendingExternalCalls_eq s)).
  destruct (pendingExternalCalls s); reflexivity.
Qed.

(** X7: [concludeActivation] called twice in a row.  The second call always
    reports [complete]: with the commands that were held back, if the first
    reported [pending], and with no commands if the first had sent them. *)
Theorem concludeActivation_twice (s : State) :
  ∃ r s1 s2,
    concludeActivation s = Ok r s1
    ∧ concludeActivation s1
      = Ok (ConclusionComplete
              (encodeDelimited
                 {| wc_runId := runId <$> info s;
                    wc_commands := match pendingExternalCalls s with
                                   | [] => []
                                   | _ => commands s
                                   end |})) s2
    ∧ commands s2 = []
    ∧ pendingExternalCalls s2 = [].
Proof.
  rewrite (concludeActivation_run s).
  destruct (pendingExternalCalls s) as [| c calls] eqn:Hp.
  - eexists _, _, _. split; [reflexivity |].
    rewrite concludeActivation_run. simpl. split; [reflexivity |]. split; reflexivity.
  - eexists _, _, _. split; [reflexivity |].
    rewrite concludeActivation_run. simpl. split; [reflexivity |]. split; reflexivity.
Qed.

End ActivationEdges.

(** [pushScope], computed: the scope goes on the stack and, if it has a
    parent, into the parent's set, which is allocated when missing. *)
Lemma pushScope_eq (sc : Scope) (s : State) :
  pushScope sc s
  = Ok sc
      (let s0 := set_scopeStack (fun st => st ++ [sc]) s in
       match parent sc with
       | None => s0
       | Some p =>
           match childScopes s !! idx p with
           | Some a => set_setHeap (alter (set_add sc) a) s0
           | None =>
               set_setHeap (alter (set_add sc) (nextObj s))
                 (set_childScopes <[idx p := nextObj s]>
                    (set_setHeap <[nextObj s := []]> (set_nextObj S s0)))
           end
       end).
Proof.
  unfold pushScope. run_engine.
  destruct (parent sc) as [p |]; [| reflexivity]. simpl.
  destruct (childScopes s !! idx p); reflexivity.
Qed.


(** ** The promise hook *)

Lemma hook_init_eq (p : nat) (pp : option nat) (s : State) (sc : Scope) :
  last (scopeStack s) = Some sc →
  promiseHook HookInit p pp s
  = Ok tt
      (let c := negb (bool_decide (idx sc ∈ associated s)) in
       set_associated (union {[ idx sc ]})
         (match pp with
          | None => set_promiseData <[p := {| pd_scope := sc; cancellable := c |}]> s
          | Some q =>
              match promiseData s !! q with
              | None =>
                  set_promiseData <[p := {| pd_scope := sc; cancellable := c |}]>
                    (set_promiseData
                       <[q := {| pd_scope := sc; cancellable := false |}]> s)
              | Some d =>
                  set_promiseData <[p := {| pd_scope := pd_scope d; cancellable := c |}]> s
              end
          end)).
Proof.
  intros Htop. unfold promiseHook, currentScope. run_engine. rewrite Htop. simpl.
  destruct pp as [q |]; [| reflexivity]. simpl.
  destruct (promiseData s !! q); reflexivity.
Qed.

(** X9: of the promises created while a scope is the current one, the first
    is cancellable and no later one is: [init] marks the scope as associated. *)
Theorem hook_init_first_promise_cancellable (p q : nat) (s : State) (sc : Scope) :
  last (scopeStack s) = Some sc →
  idx sc ∉ associated s →
  ∃ s1 s2,
    promiseHook HookInit p None s = Ok tt s1
    ∧ promiseData s1 !! p = Some {| pd_scope := sc; cancellable := true |}
    ∧ idx sc ∈ associated s1
    ∧ promiseHook HookInit q None s1 = Ok tt s2
    ∧ promiseData s2 !! q = Some {| pd_scope := sc; cancellable := false |}
    ∧ (p ≠ q → promiseData s2 !! p = Some {| pd_scope := sc; cancellable := true |}).
Proof.
  intros Htop Hfresh. eexists _, _.
  split; [apply (hook_init_eq _ _ _ _ Htop) |].
  split.
  { simpl. rewrite bool_decide_eq_false_2 by exact Hfresh. apply lookup_insert_eq. }
  split; [simpl; set_solver |].
  split; [apply (hook_init_eq _ _ _ sc); exact Htop |].
  assert (Hin : bool_decide (idx sc ∈ {[idx sc]} ∪ associated s) = true)
    by (apply bool_decide_eq_true_2; set_solver).
  split.
  - simpl. rewrite Hin. apply lookup_insert_eq.
  - intros Hne. simpl. rewrite lookup_insert_ne by congruence.
    rewrite bool_decide_eq_false_2 by exact Hfresh. apply lookup_insert_eq.
Qed.

(** X10: a promise created from a parent promise gets the parent's scope, not
    the current one; a parent that the hook has not seen is first given the
    current scope and marked not cancellable. *)
Theorem hook_init_inherits_scope (p pp : nat) (s : State) (sc : Scope) :
  last (scopeStack s) = Some sc →
  p ≠ pp →
  ∃ s',
    promiseHook HookInit p (Some pp) s = Ok tt s'
    ∧ idx sc ∈ associated s'
    ∧ match promiseData s !! pp with
      | Some d =>
          promiseData s' !! pp = Some d
          ∧ (pd_scope <$> promiseData s' !! p) = Some (pd_scope d)
      | None =>
          promiseData s' !! pp = Some {| pd_scope := sc; cancellable := false |}
          ∧ (pd_scope <$> promiseData s' !! p) = Some sc
      end
    ∧ (cancellable <$> promiseData s' !! p)
      = Some (negb (bool_decide (idx sc ∈ associated s))).
Proof.
  intros Htop Hne. eexists.
  split; [apply (hook_init_eq _ _ _ _ Htop) |].
  split; [simpl; set_solver |].
  simpl. destruct (promiseData s !! pp) as [d |] eqn:Hd; simpl.
  - rewrite lookup_insert_ne by congruence. rewrite lookup_insert_eq, Hd. auto.
  - rewrite lookup_insert_ne by congruence. rewrite !lookup_insert_eq. auto.
Qed.

(** [resolve], [before] and [after] for a promise the hook holds no data for
    throw [IllegalStateError] and change nothing. *)
Lemma hook_without_data (t : HookType) (p : nat) (pp : option nat) (s : State) :
  t ≠ HookInit →
  promiseData s !! p = None →
  promiseHook t p pp s
  = Throw (VErr (MkError IllegalStateErrorC "Expected promise to have an associated scope"
                   (nextObj s)))
          (set_nextObj S s).
Proof.
  intros Ht Hnone. destruct t; [congruence | | |];
    unfold promiseHook; run_engine; rewrite Hnone; reflexivity.
Qed.


(** Facts about the sets. *)

Lemma set_size_members (es : ScopeSet) : set_size es = length (set_members es).
Proof.
  unfold set_size, set_members. induction es as [| [x |] es IH].
  - reflexivity.
  - rewrite filter_cons_True by eauto. cbn. f_equal. exact IH.
  - rewrite filter_cons_False by (intros [? ?]; discriminate). cbn. exact IH.
Qed.

Lemma set_has_members (x : Scope) (es : ScopeSet) :
  set_has x es = true ↔ idx x ∈ idx <$> set_members es.
Proof.
  unfold set_has, set_members, same_scope. induction es as [| [y |] es IH]; simpl.
  - split; [discriminate | intros H; inversion H].
  - rewrite orb_true_iff, IH, elem_of_cons, bool_decide_eq_true. intuition congruence.
  - exact IH.
Qed.

Lemma set_members_add (x : Scope) (es : ScopeSet) :
  set_members (set_add x es)
  = if set_has x es then set_members es else set_members es ++ [x].
Proof.
  unfold set_add. destruct (set_has x es); [reflexivity |].
  unfold set_members. rewrite omap_app. reflexivity.
Qed.

Lemma set_has_add (x : Scope) (es : ScopeSet) : set_has x (set_add x es) = true.
Proof.
  unfold set_add. destruct (set_has x es) eqn:E; [exact E |].
  unfold set_has. rewrite existsb_app. simpl. unfold same_scope.
  rewrite bool_decide_eq_true_2 by reflexivity. apply orb_true_iff. right. reflexivity.
Qed.

Lemma set_add_idempotent (x : Scope) (es : ScopeSet) :
  set_add x (set_add x es) = set_add x es.
Proof. unfold set_add at 1. rewrite set_has_add. reflexivity. Qed.

Lemma set_members_delete (x : Scope) (es : ScopeSet) :
  set_members (set_delete x es) = filter (fun y => idx y ≠ idx x) (set_members es).
Proof.
  unfold set_members, set_delete, same_scope.
  induction es as [| [y |] es IH]; [reflexivity | | exact IH].
  change (omap id (Some y :: es)) with (y :: omap id es).
  destruct (decide (idx y = idx x)) as [Heq | Hne].
  - rewrite filter_cons_False by (intros H; apply H, Heq).
    cbn [map]. rewrite bool_decide_eq_true_2 by exact Heq. exact IH.
  - rewrite filter_cons_True by exact Hne.
    cbn [map]. rewrite bool_decide_eq_false_2 by exact Hne.
    change (y :: omap id (map (fun e : option Scope =>
              match e with
              | Some y => if bool_decide (idx y = idx x) then None else Some y
              | None => None
              end) es)
            = y :: filter (fun y => idx y ≠ idx x) (omap id es)).
    f_equal. exact IH.
Qed.

Lemma set_has_delete (x : Scope) (es : ScopeSet) : set_has x (set_delete x es) = false.
Proof.
  apply not_true_is_false. rewrite set_has_members, set_members_delete.
  rewrite list_elem_of_fmap. intros (y & Hy & Hin).
  apply list_elem_of_filter in Hin as [Hne _]. congruence.
Qed.




Lemma hook_resolve_eq (p : nat) (pp : option nat) (s : State)
    (d : PromiseData) (par : Scope) (a : nat) (es : ScopeSet) :
  promiseData s !! p = Some d →
  cancellable d = true →
  parent (pd_scope d) = Some par →
  childScopes s !! idx par = Some a →
  setHeap s !! a = Some es →
  promiseHook HookResolve p pp s
  = Ok tt
      (let s1 := set_setHeap (alter (set_delete (pd_scope d)) a) s in
       if bool_decide (set_size (set_delete (pd_scope d) es) = 0%nat)
       then set_childScopes (delete (idx par)) s1
       else s1).
Proof.
  intros Hd Hc Hpar Ha Hes.
  unfold promiseHook. unfold bind at 1, gets. rewrite Hd, Hc, Hpar.
  unfold bind at 1, gets. rewrite Ha.
  unfold bind at 1, modify. unfold bind at 1, gets.
  assert (He : heap_entries a (set_setHeap (alter (set_delete (pd_scope d)) a) s)
               = set_delete (pd_scope d) es).
  { unfold heap_entries. simpl. rewrite lookup_alter_eq, Hes. reflexivity. }
  rewrite He. destruct (bool_decide _); reflexivity.
Qed.

(** X12: [resolve] for a cancellable promise takes the promise's scope out
    of its parent's child set, and drops the parent's entry from [childScopes]
    when that leaves the set empty. *)
Theorem hook_resolve_removes_scope (p : nat) (pp : option nat) (s : State)
    (d : PromiseData) (par : Scope) (a : nat) (es : ScopeSet) :
  promiseData s !! p = Some d →
  cancellable d = true →
  parent (pd_scope d) = Some par →
  childScopes s !! idx par = Some a →
  setHeap s !! a = Some es →
  ∃ s',
    promiseHook HookResolve p pp s = Ok tt s'
    ∧ setHeap s' !! a = Some (set_delete (pd_scope d) es)
    ∧ set_has (pd_scope d) (set_delete (pd_scope d) es) = false
    ∧ set_members (set_delete (pd_scope d) es)
      = filter (fun y => idx y ≠ idx (pd_scope d)) (set_members es)
    ∧ childScopes s' !! idx par
      = (if decide (set_members (set_delete (pd_scope d) es) = []) then None else Some a)
    ∧ (∀ k, k ≠ idx par → childScopes s' !! k = childScopes s !! k)
    ∧ scopeStack s' = scopeStack s.
Proof.
  intros Hd Hc Hpar Ha Hes.
  rewrite (hook_resolve_eq _ _ _ _ _ _ _ Hd Hc Hpar Ha Hes).
  eexists. split; [reflexivity |].
  assert (Hheap : ∀ (b : bool) f,
            setHeap (if b then set_childScopes f
                                 (set_setHeap (alter (set_delete (pd_scope d)) a) s)
                     else set_setHeap (alter (set_delete (pd_scope d)) a) s) !! a
            = Some (set_delete (pd_scope d) es)).
  { intros [] f; simpl; rewrite lookup_alter_eq, Hes; reflexivity. }
  split; [apply Hheap |].
  split; [apply set_has_delete |]. split; [apply set_members_delete |].
  rewrite set_size_members.
  destruct (decide (set_members (set_delete (pd_scope d) es) = [])) as [Hnil | Hcons].
  - rewrite Hnil. simpl.
    split; [apply lookup_delete_eq |].
    split; [intros k Hk; apply lookup_delete_ne; congruence | reflexivity].
  - rewrite bool_decide_eq_false_2.
    + split; [exact Ha |]. split; reflexivity.
    + destruct (set_members (set_delete (pd_scope d) es)); [congruence | discriminate].
Qed.

(** [resolve] for a promise that is not cancellable changes nothing, and for a
    cancellable promise whose scope has no parent it throws
    [IllegalStateError]. *)
Lemma hook_resolve_other_cases (p : nat) (pp : option nat) (s : State) (d : PromiseData) :
  promiseData s !! p = Some d →
  (cancellable d = false → promiseHook HookResolve p pp s = Ok tt s)
  ∧ (cancellable d = true → parent (pd_scope d) = None →
     promiseHook HookResolve p pp s
     = Throw (VErr (MkError IllegalStateErrorC "Resolved promise for orphan scope"
                      (nextObj s)))
             (set_nextObj S s))
  ∧ (∀ par, cancellable d = true → parent (pd_scope d) = Some par →
     childScopes s !! idx par = None →
     promiseHook HookResolve p pp s = Ok tt s).
Proof.
  intros Hd. split; [| split].
  - intros Hc. unfold promiseHook. run_engine. rewrite Hd, Hc. reflexivity.
  - intros Hc Hpar. unfold promiseHook. run_engine. rewrite Hd, Hc, Hpar. reflexivity.
  - intros par Hc Hpar Hnone. unfold promiseHook. run_engine.
    rewrite Hd, Hc, Hpar. simpl. rewrite Hnone. reflexivity.
Qed.

(** X13: the events of a cancellable scope's life.  A scope is pushed under a
    parent that has no child set, a promise is created in it, the scope is
    popped; the parent then has a set holding just this scope.  When the
    promise resolves, [childScopes] and the stack are what they were at the
    start. *)
Theorem scope_opened_then_resolved (p : nat) (sc par : Scope) (s : State) :
  parent sc = Some par →
  childScopes s !! idx par = None →
  idx sc ∉ associated s →
  ∃ s1 s2,
    (_ <- pushScope sc ;; promiseHook HookInit p None ;; popScope) s = Ok tt s1
    ∧ (∃ a, childScopes s1 !! idx par = Some a ∧ setHeap s1 !! a = Some [Some sc])
    ∧ promiseData s1 !! p = Some {| pd_scope := sc; cancellable := true |}
    ∧ scopeStack s1 = scopeStack s
    ∧ promiseHook HookResolve p None s1 = Ok tt s2
    ∧ childScopes s2 = childScopes s
    ∧ scopeStack s2 = scopeStack s.
Proof.
  intros Hpar Hnone Hfresh.
  pose (s0 := set_setHeap (alter (set_add sc) (nextObj s))
                (set_childScopes <[idx par := nextObj s]>
                   (set_setHeap <[nextObj s := []]>
                      (set_nextObj S (set_scopeStack (fun st => st ++ [sc]) s))))).
  assert (Hpush : pushScope sc s = Ok sc s0).
  { rewrite pushScope_eq. simpl. rewrite Hpar, Hnone. reflexivity. }
  assert (Htop : last (scopeStack s0) = Some sc) by apply last_snoc.
  pose proof (hook_init_eq p None s0 sc Htop) as Hinit.
  assert (Hheap : ∀ s1, setHeap s1 = setHeap s0 → setHeap s1 !! nextObj s = Some [Some sc]).
  { intros s1 ->. simpl. rewrite lookup_alter_eq, lookup_insert_eq. reflexivity. }
  eexists _, _.
  split.
  { unfold bind at 1. rewrite Hpush. unfold bind at 1. rewrite Hinit. reflexivity. }
  split.
  { exists (nextObj s). split; [simpl; apply lookup_insert_eq | apply Hheap; reflexivity]. }
  split.
  { simpl. rewrite bool_decide_eq_false_2 by exact Hfresh. apply lookup_insert_eq. }
  split; [simpl; apply removelast_last |].
  split.
  { apply (hook_resolve_eq p None _ {| pd_scope := sc; cancellable := true |}
             par (nextObj s) [Some sc]).
    - simpl. rewrite bool_decide_eq_false_2 by exact Hfresh. apply lookup_insert_eq.
    - reflexivity.
    - exact Hpar.
    - simpl. apply lookup_insert_eq.
    - apply Hheap. reflexivity. }
  assert (Hgone : set_size (set_delete sc [Some sc]) = 0%nat).
  { rewrite set_size_members, set_members_delete. simpl.
    rewrite filter_cons_False by (intros H; apply H; reflexivity). reflexivity. }
  simpl pd_scope. rewrite Hgone. simpl.
  split; [apply delete_insert_id, Hnone | apply removelast_last].
Qed.


(** X14: pushing a scope that is on the stack already, as the hook does at
    every [before], puts it on the stack once more but does not enter it a
    second time in its parent's set, nor allocate. *)
Theorem pushScope_again (sc : Scope) (s : State) :
  ∃ s1 s2,
    pushScope sc s = Ok sc s1
    ∧ pushScope sc s1 = Ok sc s2
    ∧ scopeStack s2 = scopeStack s ++ [sc; sc]
    ∧ childScopes s2 = childScopes s1
    ∧ setHeap s2 = setHeap s1
    ∧ nextObj s2 = nextObj s1.
Proof.
  assert (Halter : ∀ a (h : gmap nat ScopeSet),
            alter (set_add sc) a (alter (set_add sc) a h) = alter (set_add sc) a h).
  { intros a h. apply map_eq. intros k.
    destruct (decide (a = k)) as [-> | Hne];
      [rewrite !lookup_alter_eq | rewrite !lookup_alter_ne by done; reflexivity].
    destruct (h !! k) as [l |]; [| reflexivity].
    change (Some (set_add sc (set_add sc l)) = Some (set_add sc l)).
    rewrite set_add_idempotent. reflexivity. }
  eexists _, _. split; [apply pushScope_eq |]. split; [apply pushScope_eq |].
  destruct (parent sc) as [par |] eqn:Hpar; simpl.
  - destruct (childScopes s !! idx par) as [a |] eqn:Ha; simpl.
    + rewrite Ha. simpl. rewrite <- app_assoc, Halter. repeat split.
    + rewrite lookup_insert_eq. simpl. rewrite <- app_assoc, Halter. repeat split.
  - rewrite <- app_assoc. repeat split.
Qed.

Lemma NoDup_fmap_filter {A B} (f : A → B) (P : A → Prop) `{∀ x, Decision (P x)}
    (l : list A) :
  NoDup (f <$> l) → NoDup (f <$> filter P l).
Proof.
  induction l as [| x l IH]; [done |].
  rewrite fmap_cons, NoDup_cons. intros [Hx Hl].
  destruct (decide (P x)).
  - rewrite filter_cons_True by done. rewrite fmap_cons, NoDup_cons.
    split; [| auto]. intros Hin. apply Hx.
    apply list_elem_of_fmap in Hin as (y & -> & Hy).
    apply list_elem_of_filter in Hy as [_ Hy]. apply list_elem_of_fmap. eauto.
  - rewrite filter_cons_False by done. auto.
Qed.

Lemma child_sets_wf_frame (s s' : State) :
  childScopes s' = childScopes s →
  setHeap s' = setHeap s →
  (nextObj s ≤ nextObj s')%nat →
  child_sets_wf s → child_sets_wf s'.
Proof.
  intros Hc Hh Hn Hwf k a Hk. rewrite Hc in Hk.
  destruct (Hwf k a Hk) as (Hlt & Hinj & es & Hes & Hnd & Hsz).
  split; [lia |]. split; [intros k'; rewrite Hc; apply Hinj |].
  exists es. rewrite Hh. auto.
Qed.

Lemma set_add_wf (sc : Scope) (es : ScopeSet) :
  NoDup (idx <$> set_members es) →
  NoDup (idx <$> set_members (set_add sc es)) ∧ (0 < set_size (set_add sc es))%nat.
Proof.
  intros Hnd. rewrite set_size_members, set_members_add.
  destruct (set_has sc es) eqn:Hhas.
  - split; [exact Hnd |].
    apply set_has_members in Hhas.
    destruct (set_members es); [inversion Hhas | simpl; lia].
  - split.
    + rewrite fmap_app. apply NoDup_app. split; [exact Hnd |].
      split; [| apply NoDup_singleton].
      intros x Hx Hin. apply list_elem_of_singleton in Hin as ->.
      apply set_has_members in Hx. congruence.
    + rewrite length_app. simpl. lia.
Qed.

Lemma child_sets_wf_pushScope (sc : Scope) (s s' : State) :
  child_sets_wf s → pushScope sc s = Ok sc s' → child_sets_wf s'.
Proof.
  intros Hwf. rewrite pushScope_eq. intros [= <-]. simpl.
  destruct (parent sc) as [par |] eqn:Hpar.
  2: { apply (child_sets_wf_frame s); auto. }
  destruct (childScopes s !! idx par) as [a |] eqn:Ha.
  - intros k a' Hk. simpl in Hk.
    destruct (Hwf k a' Hk) as (Hlt & Hinj & es & Hes & Hnd & Hsz).
    split; [exact Hlt |]. split; [exact Hinj |]. simpl.
    rewrite lookup_alter. case_decide as Heq.
    + subst a'. rewrite Hes. simpl. eexists. split; [reflexivity |].
      apply set_add_wf, Hnd.
    + exists es. auto.
  - intros k a' Hk. simpl in Hk |- *.
    destruct (decide (k = idx par)) as [-> | Hne].
    + rewrite lookup_insert_eq in Hk. injection Hk as <-.
      split; [lia |]. split.
      * intros k' Hk'. destruct (decide (k' = idx par)) as [| Hne']; [done |].
        rewrite lookup_insert_ne in Hk' by congruence.
        destruct (Hwf k' _ Hk') as (Hlt & _). lia.
      * rewrite lookup_alter_eq, lookup_insert_eq. simpl. eexists. split; [reflexivity |].
        apply set_add_wf. constructor.
    + rewrite lookup_insert_ne in Hk by congruence.
      destruct (Hwf k a' Hk) as (Hlt & Hinj & es & Hes & Hnd & Hsz).
      split; [lia |]. split.
      * intros k' Hk'. destruct (decide (k' = idx par)) as [-> | Hne'].
        -- rewrite lookup_insert_eq in Hk'. injection Hk' as Heq. lia.
        -- rewrite lookup_insert_ne in Hk' by congruence. apply Hinj, Hk'.
      * exists es. rewrite lookup_alter_ne, lookup_insert_ne by lia. auto.
Qed.

Lemma child_sets_wf_resolve (sc par : Scope) (a : nat) (es : ScopeSet) (s : State) :
  child_sets_wf s →
  childScopes s !! idx par = Some a →
  setHeap s !! a = Some es →
  child_sets_wf
    (let s1 := set_setHeap (alter (set_delete sc) a) s in
     if bool_decide (set_size (set_delete sc es) = 0%nat)
     then set_childScopes (delete (idx par)) s1
     else s1).
Proof.
  intros Hwf Ha Hes. simpl.
  assert (Hother : ∀ k a', k ≠ idx par → childScopes s !! k = Some a' → a' ≠ a).
  { intros k a' Hne Hk ->. destruct (Hwf _ _ Ha) as (_ & Hinj & _).
    apply Hne. apply (Hinj k Hk). }
  case_bool_decide as Hsize; intros k a' Hk; simpl in Hk |- *.
  - destruct (decide (k = idx par)) as [-> | Hne];
      [rewrite lookup_delete_eq in Hk; discriminate |].
    rewrite lookup_delete_ne in Hk by congruence.
    destruct (Hwf k a' Hk) as (Hlt & Hinj & es' & Hes' & Hnd & Hsz).
    split; [exact Hlt |]. split.
    + intros k' Hk'. destruct (decide (k' = idx par)) as [-> | Hne'];
        [rewrite lookup_delete_eq in Hk'; discriminate |].
      rewrite lookup_delete_ne in Hk' by congruence. apply Hinj, Hk'.
    + exists es'. rewrite lookup_alter_ne by (intros ->; exact (Hother k a' Hne Hk eq_refl)).
      auto.
  - destruct (Hwf k a' Hk) as (Hlt & Hinj & es' & Hes' & Hnd & Hsz).
    split; [exact Hlt |]. split; [exact Hinj |].
    rewrite lookup_alter. case_decide as Heq.
    + subst a'. rewrite Hes in Hes'. injection Hes' as <-. rewrite Hes. simpl.
      eexists. split; [reflexivity |]. split; [| lia].
      rewrite set_members_delete. apply NoDup_fmap_filter, Hnd.
    + exists es'. auto.
Qed.

(** X15: the child sets stay well formed.  In a fresh state, and after any
    [pushScope], [popScope] or hook event on a well-formed state, every set
    that [childScopes] points to is non-empty, holds no scope twice and
    belongs to one scope only. *)
Theorem child_sets_wf_preserved :
  child_sets_wf initial_state
  ∧ ∀ s, child_sets_wf s →
      (∀ sc, child_sets_wf (state_of (pushScope sc s) s))
      ∧ child_sets_wf (state_of (popScope s) s)
      ∧ (∀ t p pp, child_sets_wf (state_of (promiseHook t p pp s) s)).
Proof.
  split; [intros k a Hk; discriminate |].
  intros s Hwf.
  assert (Hthrow : ∀ c msg, child_sets_wf (state_of (@throw_new unit c msg s) s)).
  { intros c msg. apply (child_sets_wf_frame s); simpl; auto. }
  assert (Hpush : ∀ sc, child_sets_wf (state_of (pushScope sc s) s)).
  { intros sc. destruct (pushScope sc s) as [x s' | |] eqn:Hp;
      rewrite pushScope_eq in Hp; try discriminate.
    simpl. apply (child_sets_wf_pushScope sc s); [exact Hwf |].
    rewrite pushScope_eq. congruence. }
  split; [exact Hpush |].
  split; [apply (child_sets_wf_frame s); simpl; auto |].
  intros t p pp. destruct t.
  - unfold promiseHook, currentScope. run_engine.
    destruct (last (scopeStack s)) as [sc |]; simpl.
    + destruct pp as [q |]; simpl; [destruct (promiseData s !! q) |]; simpl;
        apply (child_sets_wf_frame s); simpl; auto.
    + apply (child_sets_wf_frame s); simpl; auto.
  - destruct (promiseData s !! p) as [d |] eqn:Hd.
    2: { unfold promiseHook. unfold bind at 1, gets. rewrite Hd. apply Hthrow. }
    destruct (cancellable d) eqn:Hc.
    2: { unfold promiseHook. unfold bind at 1, gets. rewrite Hd, Hc. exact Hwf. }
    destruct (parent (pd_scope d)) as [par |] eqn:Hpar.
    2: { unfold promiseHook. unfold bind at 1, gets. rewrite Hd, Hc, Hpar. apply Hthrow. }
    destruct (childScopes s !! idx par) as [a |] eqn:Ha.
    2: { unfold promiseHook. unfold bind at 1, gets. rewrite Hd, Hc, Hpar.
         unfold bind at 1, gets. rewrite Ha. exact Hwf. }
    destruct (Hwf _ _ Ha) as (_ & _ & es & Hes & _).
    rewrite (hook_resolve_eq _ _ _ _ _ _ _ Hd Hc Hpar Ha Hes).
    apply (child_sets_wf_resolve _ _ _ _ _ Hwf Ha Hes).
  - unfold promiseHook. unfold bind at 1, gets.
    destruct (promiseData s !! p) as [d |]; [| apply Hthrow].
    destruct (container_scope (pd_scope d)) as [sc |]; [| apply Hthrow].
    specialize (Hpush sc). unfold bind.
    destruct (pushScope sc s); exact Hpush.
  - unfold promiseHook. unfold bind at 1, gets.
    destruct (promiseData s !! p) as [d |]; [| apply Hthrow].
    apply (child_sets_wf_frame s); simpl; auto.
Qed.

Section ResolutionEdges.
Context {host : Host}.

(** X16: [resolveActivity] on results it has no branch for.  Without a
    result it throws before touching the completion table; with an empty
    activity id it throws the error of [idToSeq], which speaks of a timer id;
    with a result that is neither completed, failed nor canceled it removes
    the completion and calls neither [resolve] nor [reject]. *)
Theorem resolveActivity_edges (fuel : nat) (a : IResolveActivity) (s : State) :
  (result_of a = None →
     resolveActivity fuel a s
     = Throw (VErr (MkError ErrorC "Got CompleteActivity activation with no result"
                      (nextObj s)))
             (set_nextObj S s))
  ∧ (∀ r, result_of a = Some r →
       activityId_of a = None ∨ activityId_of a = Some "" →
       resolveActivity fuel a s
       = Throw (VErr (MkError ErrorC "Got activation with no timerId" (nextObj s)))
               (set_nextObj S s))
  ∧ (∀ r id c, result_of a = Some r →
       activityId_of a = Some id → id ≠ "" →
       lookup_completion (parseInt id) s = Some c →
       completed_of r = None → failed_of r = None → canceled_of r = None →
       resolveActivity fuel a s = Ok [] (delete_completion (parseInt id) s)
       ∧ lookup_completion (parseInt id) (delete_completion (parseInt id) s) = None).
Proof.
  split; [| split].
  - intros Hr. unfold resolveActivity. rewrite Hr. reflexivity.
  - intros r Hr [Hid | Hid]; unfold resolveActivity; rewrite Hr, Hid; reflexivity.
  - intros r id c Hr Hid Hne Hc H1 H2 H3.
    split; [| apply lookup_delete_completion].
    unfold resolveActivity. rewrite Hr, Hid.
    rewrite (bind_Ok _ _ _ _ _ (idToSeq_Some id s Hne)).
    rewrite (bind_Ok _ _ _ _ _ (consumeCompletion_found _ _ _ Hc)).
    rewrite H1, H2, H3. reflexivity.
Qed.

(** X17: [resolveExternalDependencies] settles a result whose completion
    exists by removing the completion and calling [reject] with the error if
    the error is truthy, [resolve] with the result otherwise; an error that is
    [undefined], [null], [false], [0], [NaN] or the empty string therefore
    counts as success.  The remaining results follow. *)
Theorem resolveExternalDependencies_settles (fuel : nat) (r : ExternalDependencyResult)
    (rest : list ExternalDependencyResult) (s : State) (c : Completion) :
  lookup_completion (dep_seq r) s = Some c →
  (truthy (dep_error r) = true →
     resolveExternalDependencies fuel (r :: rest) s
     = (_ <- apply fuel (reject c) [dep_error r] ;;
        resolveExternalDependencies fuel rest) (delete_completion (dep_seq r) s))
  ∧ (truthy (dep_error r) = false →
     resolveExternalDependencies fuel (r :: rest) s
     = (_ <- apply fuel (resolve c) [dep_result r] ;;
        resolveExternalDependencies fuel rest) (delete_completion (dep_seq r) s))
  ∧ (dep_error r ∈ [VUndefined; VNull; VBool false; VNum (Int 0); VNum NaN; VStr ""] →
     truthy (dep_error r) = false)
  ∧ (∀ e, truthy (VErr e) = true).
Proof.
  intros Hc.
  assert (Hstep : resolveExternalDependencies fuel (r :: rest) s
                  = (_ <- (if truthy (dep_error r)
                           then apply fuel (reject c) [dep_error r]
                           else apply fuel (resolve c) [dep_result r]) ;;
                     resolveExternalDependencies fuel rest)
                      (delete_completion (dep_seq r) s)).
  { cbn [resolveExternalDependencies].
    rewrite (bind_Ok _ _ _ _ _ (consumeCompletion_found _ _ _ Hc)). reflexivity. }
  split; [| split; [| split]].
  - intros Ht. rewrite Hstep, Ht. reflexivity.
  - intros Ht. rewrite Hstep, Ht. reflexivity.
  - intros Hin. repeat (apply elem_of_cons in Hin as [-> | Hin]; [reflexivity |]).
    inversion Hin.
  - reflexivity.
Qed.

(** X18: an awaited external call and its answer.  The executor of a function
    injected with [ASYNC] takes the next sequence number, records the
    promise's resolvers under it and queues the call with that number;
    [concludeActivation] then reports [pending] with the call and keeps the
    commands; the result that the host delivers for that number reaches the
    resolvers, and the completion is gone. *)
Theorem async_dependency_round_trip (fuel : nat) (ifaceName fnName : string)
    (args : list Val) (resolve reject : Fn) (result error : Val) (s : State) (sc : Scope) :
  last (scopeStack s) = Some sc →
  ∃ s1 s2,
    async_dependency_executor ifaceName fnName args resolve reject s = Ok tt s1
    ∧ nextSeq s1 = nextSeq s + 1
    ∧ concludeActivation s1
      = Ok (ConclusionPending
              (pendingExternalCalls s
               ++ [MkExternalCall ifaceName fnName args (Some (nextSeq s))])) s2
    ∧ commands s2 = commands s
    ∧ resolveExternalDependencies fuel
        [{| dep_seq := Int (nextSeq s); dep_result := result; dep_error := error |}] s2
      = (_ <- (if truthy error then apply fuel reject [error]
               else apply fuel resolve [result]) ;;
         ret tt) (set_completions (delete (nextSeq s)) s2)
    ∧ completions (set_completions (delete (nextSeq s)) s2) = delete (nextSeq s) (completions s).
Proof.
  intros Htop. eexists _, _.
  split.
  { unfold async_dependency_executor, currentScope. run_engine. rewrite Htop. reflexivity. }
  split; [reflexivity |].
  split.
  { rewrite concludeActivation_run. simpl.
    destruct (pendingExternalCalls s); reflexivity. }
  split; [reflexivity |].
  split.
  - cbn [resolveExternalDependencies].
    erewrite (bind_Ok _ _ _ _ {| resolve := resolve; reject := reject; scope := sc |}).
    + reflexivity.
    + apply consumeCompletion_found. simpl. apply lookup_insert_eq.
  - simpl. apply delete_insert_eq.
Qed.

End ResolutionEdges.

(** X19: a call of a function injected with [ASYNC_IGNORED] queues the call
    without a sequence number: [nextSeq] and the completion table stay as they
    are, so the host has nothing to answer; [concludeActivation] still reports
    the activation as pending because of it. *)
Theorem ignored_dependency_call_spec `{host : Host} (ifaceName fnName : string)
    (args : list Val) (s : State) :
  ∃ s1 s2,
    ignored_dependency_call ifaceName fnName args s
    = Ok (Z.of_nat (length (pendingExternalCalls s)) + 1) s1
    ∧ nextSeq s1 = nextSeq s
    ∧ completions s1 = completions s
    ∧ concludeActivation s1
      = Ok (ConclusionPending
              (pendingExternalCalls s ++ [MkExternalCall ifaceName fnName args None])) s2
    ∧ commands s2 = commands s.
Proof.
  eexists _, _. split.
  { unfold ignored_dependency_call. run_engine. rewrite length_app. simpl.
    f_equal. lia. }
  split; [reflexivity |]. split; [reflexivity |].
  split.
  { rewrite concludeActivation_run. simpl.
    destruct (pendingExternalCalls s); reflexivity. }
  reflexivity.
Qed.


Section SignalsAndQueries.
Context {host : Host}.

(** The function that [signalWorkflow] wraps in the interceptors. *)
Lemma signalWorkflow_run (a : ISignalWorkflow) (s : State) (w : Workflow)
    (sg : gmap string nat) (name : string) (fn : nat) :
  workflow s = Some w → signals w = Some sg →
  signalName_of a = Some name → name ≠ "" → sg !! name = Some fn →
  signalWorkflow a s
  = (p <- composeInterceptors (inbound (interceptors s)) HandleSignal
            (fun input =>
               w <- gets workflow ;;
               match w with
               | None => async_throw_new IllegalStateErrorC "state.workflow is not defined"
               | Some _ => async_call fn (in_args input)
               end)
            {| in_headers := [];
               in_args := arrayFromPayloads (signal_input a);
               in_signalName := Some name |} ;;
     ret [promise_catch p failWorkflow]) s.
Proof.
  intros Hw Hsg Hname Hne Hfn. unfold signalWorkflow.
  unfold bind at 1, gets. rewrite Hw, Hsg, Hname.
  destruct name; [congruence |]. unfold get_property. rewrite Hfn. reflexivity.
Qed.

(** X21: a signal the workflow cannot take makes [signalWorkflow] throw a
    plain [Error], with no command added and the workflow not completed: no
    workflow, no signals declared, no signal name, or a name under which
    [signals] has no property, neither its own nor one inherited from
    [Object.prototype]. *)
Theorem signalWorkflow_rejects (a : ISignalWorkflow) (s : State) :
  (workflow s = None
   ∨ ∃ w, workflow s = Some w
          ∧ (signals w = None
             ∨ ∃ sg, signals w = Some sg
                     ∧ (signalName_of a = None
                        ∨ signalName_of a = Some ""
                        ∨ ∃ name, signalName_of a = Some name
                                  ∧ sg !! name = None
                                  ∧ name ∉ Object_prototype_names))) →
  ∃ e s',
    signalWorkflow a s = Throw (VErr e) s'
    ∧ err_class e = ErrorC
    ∧ commands s' = commands s
    ∧ completed s' = completed s
    ∧ completions s' = completions s.
Proof.
  intros H. unfold signalWorkflow. unfold bind at 1, gets.
  destruct H as [Hw | (w & Hw & H)]; rewrite Hw.
  { eexists _, _. split; [reflexivity |]. repeat split. }
  destruct H as [Hsg | (sg & Hsg & H)]; rewrite Hsg.
  { eexists _, _. split; [reflexivity |]. repeat split. }
  destruct H as [Hn | [Hn | (name & Hn & Hfn & Hnin)]]; rewrite Hn.
  - eexists _, _. split; [reflexivity |]. repeat split.
  - eexists _, _. split; [reflexivity |]. repeat split.
  - destruct name.
    + eexists _, _. split; [reflexivity |]. repeat split.
    + unfold get_property. rewrite Hfn, (bool_decide_eq_false_2 _ Hnin).
      eexists _, _. split; [reflexivity |]. repeat split.
Qed.

(** X22: what a signal handler's promise does to the workflow.  If it is
    rejected, the next microtask appends [failWorkflowExecution] with the
    converted error and sets [completed]; if it is fulfilled, the chain adds no
    command and leaves [completed] alone. *)
Theorem signalWorkflow_outcome (a : ISignalWorkflow) (s s1 : State) (w : Workflow)
    (sg : gmap string nat) (name : string) (fn : nat) (p : Promise Val) :
  workflow s = Some w → signals w = Some sg →
  signalName_of a = Some name → name ≠ "" → sg !! name = Some fn →
  composeInterceptors (inbound (interceptors s)) HandleSignal
    (fun input =>
       w <- gets workflow ;;
       match w with
       | None => async_throw_new IllegalStateErrorC "state.workflow is not defined"
       | Some _ => async_call fn (in_args input)
       end)
    {| in_headers := [];
       in_args := arrayFromPayloads (signal_input a);
       in_signalName := Some name |} s = Ok p s1 →
  signalWorkflow a s = Ok [promise_catch p failWorkflow] s1
  ∧ (∀ env err s2 e,
       drive env p s1 = Some (Rejected err, s2) →
       ∃ s', drive (env ++ [e]) (promise_catch p failWorkflow) s1
             = Some (Fulfilled VUndefined, s')
             ∧ commands s' = commands e ++ [FailWorkflowExecution (errorToUserCodeFailure err)]
             ∧ completed s' = true)
  ∧ (∀ env v s2 e,
       drive env p s1 = Some (Fulfilled v, s2) →
       drive (env ++ [e]) (promise_catch p failWorkflow) s1 = Some (Fulfilled v, e)).
Proof.
  intros Hw Hsg Hname Hne Hfn Hexec.
  split; [| split].
  - rewrite (signalWorkflow_run a s w sg name fn Hw Hsg Hname Hne Hfn).
    rewrite (bind_Ok _ _ _ _ _ Hexec). reflexivity.
  - intros env err s2 e Hp. rewrite drive_app.
    rewrite (drive_catch failWorkflow _ _ _ _ _ Hp). simpl.
    eexists. split; [reflexivity |]. split; reflexivity.
  - intros env v s2 e Hp. rewrite drive_app.
    rewrite (drive_catch failWorkflow _ _ _ _ _ Hp). reflexivity.
Qed.

(** X23: a query that cannot be served is answered, not thrown: when the
    workflow declares no queries, the job names no query type, or [queries]
    has no property under the type, neither its own nor one inherited from
    [Object.prototype], [queryWorkflow] appends
    [respondToQuery.failedWithMessage] and returns, and [completed] and the
    completion table are as before. *)
Theorem queryWorkflow_answers_failures (a : IQueryWorkflow) (s : State) (w : Workflow) :
  workflow s = Some w →
  (queries w = None
   ∨ ∃ qs, queries w = Some qs
           ∧ (queryType_of a = None
              ∨ queryType_of a = Some ""
              ∨ ∃ qt, queryType_of a = Some qt
                      ∧ qs !! qt = None
                      ∧ qt ∉ Object_prototype_names)) →
  ∃ msg s',
    queryWorkflow a s = Ok [] s'
    ∧ commands s' = commands s ++ [RespondToQuery (FailedWithMessage (Some msg))]
    ∧ completed s' = completed s
    ∧ completions s' = completions s
    ∧ pendingExternalCalls s' = pendingExternalCalls s.
Proof.
  intros Hw H. unfold queryWorkflow. unfold bind at 1, gets. rewrite Hw.
  destruct H as [Hq | (qs & Hq & H)]; rewrite Hq.
  { eexists _, _. split; [reflexivity |]. repeat split. }
  destruct H as [Ht | [Ht | (qt & Ht & Hfn & Hnin)]]; rewrite Ht.
  - eexists _, _. split; [reflexivity |]. repeat split.
  - eexists _, _. split; [reflexivity |]. repeat split.
  - destruct qt.
    + eexists _, _. split; [reflexivity |]. repeat split.
    + unfold get_property. rewrite Hfn, (bool_decide_eq_false_2 _ Hnin).
      eexists _, _. split; [reflexivity |]. repeat split.
Qed.

Lemma queryWorkflow_run (a : IQueryWorkflow) (s : State) (w : Workflow)
    (qs : gmap string nat) (qt : string) (fn : nat) :
  workflow s = Some w → queries w = Some qs →
  queryType_of a = Some qt → qt ≠ "" → qs !! qt = Some fn →
  queryWorkflow a s
  = try_catch
      (retOrPromise <- call_ext fn (arrayFromPayloads (query_arguments a)) ;;
       match retOrPromise with
       | RPromise p => ret [promise_catch (promise_then p completeQuery) failQuery]
       | RVal v => _ <- completeQuery v ;; ret []
       end)
      (fun err => _ <- failQuery err ;; ret []) s.
Proof.
  intros Hw Hq Ht Hne Hfn. unfold queryWorkflow. unfold bind at 1, gets.
  rewrite Hw, Hq, Ht. destruct qt; [congruence |].
  unfold get_property. rewrite Hfn. reflexivity.
Qed.

(** X24: the outcomes of a query handler.  A value it returns is answered
    with [respondToQuery.succeeded]; an error object it throws is answered
    with [failedWithMessage] carrying the error's message; [undefined] or
    [null] thrown escapes as a [TypeError], the failure handler reading
    [message] from it.  None of this sets [completed]. *)
Theorem queryWorkflow_handler_outcomes (a : IQueryWorkflow) (s s1 : State) (w : Workflow)
    (qs : gmap string nat) (qt : string) (fn : nat) :
  workflow s = Some w → queries w = Some qs →
  queryType_of a = Some qt → qt ≠ "" → qs !! qt = Some fn →
  (∀ v, call_ext fn (arrayFromPayloads (query_arguments a)) s = Ok (RVal v) s1 →
     ∃ s', queryWorkflow a s = Ok [] s'
           ∧ commands s' = commands s1 ++ [RespondToQuery (Succeeded (toPayload v))]
           ∧ completed s' = completed s1)
  ∧ (∀ e, call_ext fn (arrayFromPayloads (query_arguments a)) s = Throw (VErr e) s1 →
     ∃ s', queryWorkflow a s = Ok [] s'
           ∧ commands s' = commands s1
                           ++ [RespondToQuery (FailedWithMessage (Some (err_message e)))]
           ∧ completed s' = completed s1)
  ∧ (∀ thrown, thrown = VUndefined ∨ thrown = VNull →
     call_ext fn (arrayFromPayloads (query_arguments a)) s = Throw thrown s1 →
     ∃ e s', queryWorkflow a s = Throw (VErr e) s'
             ∧ err_class e = TypeErrorC
             ∧ commands s' = commands s1).
Proof.
  intros Hw Hq Ht Hne Hfn.
  rewrite (queryWorkflow_run a s w qs qt fn Hw Hq Ht Hne Hfn).
  split; [| split].
  - intros v Hcall. unfold try_catch, bind. rewrite Hcall.
    eexists. split; [reflexivity |]. split; reflexivity.
  - intros e Hcall. unfold try_catch, bind. rewrite Hcall.
    eexists. split; [reflexivity |]. split; reflexivity.
  - intros thrown [-> | ->] Hcall; unfold try_catch, bind; rewrite Hcall;
      eexists _, _; (split; [reflexivity |]); split; reflexivity.
Qed.

(** X25: a query handler that returns a promise.  Fulfilment is answered with
    [succeeded] in the next microtask, rejection with an error object is
    answered with [failedWithMessage] two microtasks on; the workflow's
    [completed] flag is whatever it is at that moment. *)
Theorem queryWorkflow_promise_outcome (a : IQueryWorkflow) (s s1 : State) (w : Workflow)
    (qs : gmap string nat) (qt : string) (fn : nat) (p : Promise Val) :
  workflow s = Some w → queries w = Some qs →
  queryType_of a = Some qt → qt ≠ "" → qs !! qt = Some fn →
  call_ext fn (arrayFromPayloads (query_arguments a)) s = Ok (RPromise p) s1 →
  queryWorkflow a s = Ok [promise_catch (promise_then p completeQuery) failQuery] s1
  ∧ (∀ env v s2 e,
       drive env p s1 = Some (Fulfilled v, s2) →
       ∃ p' s', drive (env ++ [e]) (promise_catch (promise_then p completeQuery) failQuery) s1
                = Some (p', s')
                ∧ commands s' = commands e ++ [RespondToQuery (Succeeded (toPayload v))]
                ∧ completed s' = completed e)
  ∧ (∀ env err s2 e1 e2,
       drive env p s1 = Some (Rejected (VErr err), s2) →
       ∃ p' s', drive (env ++ [e1; e2])
                  (promise_catch (promise_then p completeQuery) failQuery) s1
                = Some (p', s')
                ∧ commands s'
                  = commands e2 ++ [RespondToQuery (FailedWithMessage (Some (err_message err)))]
                ∧ completed s' = completed e2).
Proof.
  intros Hw Hq Ht Hne Hfn Hcall.
  rewrite (queryWorkflow_run a s w qs qt fn Hw Hq Ht Hne Hfn).
  split; [| split].
  - unfold try_catch, bind. rewrite Hcall. reflexivity.
  - intros env v s2 e Hp. rewrite drive_app.
    rewrite (drive_catch _ _ _ _ _ _ (drive_then completeQuery _ _ _ _ _ Hp)).
    simpl. eexists _, _. split; [reflexivity |]. split; reflexivity.
  - intros env err s2 e1 e2 Hp. rewrite drive_app.
    rewrite (drive_catch _ _ _ _ _ _ (drive_then completeQuery _ _ _ _ _ Hp)).
    simpl. eexists _, _. split; [reflexivity |]. split; reflexivity.
Qed.

(** X30: names that every plain object has.  A query type or signal name
    that the workflow does not declare but [Object.prototype] has, such as
    [toString], is not [undefined] in [queries] or [signals].  The query is
    answered with what the inherited member returns; the signal is not
    refused, and its chain is spawned.  Under [__proto__] the value read is
    no function: the query is answered as failed, and the promise of the
    signal's handler is rejected with a [TypeError], which [failWorkflow]
    then takes. *)
Theorem inherited_names_are_found (s : State) (w : Workflow) (name : string) :
  workflow s = Some w →
  name ∈ Object_prototype_names →
  (∀ a qs, queries w = Some qs → queryType_of a = Some name → qs !! name = None →
     (∀ v s1, name ≠ "__proto__" →
        call_inherited name (arrayFromPayloads (query_arguments a)) s = Ok (RVal v) s1 →
        ∃ s', queryWorkflow a s = Ok [] s'
              ∧ commands s' = commands s1 ++ [RespondToQuery (Succeeded (toPayload v))]
              ∧ completed s' = completed s1)
     ∧ (name = "__proto__" →
        ∃ s', queryWorkflow a s = Ok [] s'
              ∧ commands s'
                = commands s ++ [RespondToQuery (FailedWithMessage (Some "fn is not a function"))]
              ∧ completed s' = completed s))
  ∧ (∀ a sg, signals w = Some sg → signalName_of a = Some name → sg !! name = None →
     inbound (interceptors s) = [] →
     (∀ v s1, name ≠ "__proto__" →
        call_inherited name (arrayFromPayloads (signal_input a)) s = Ok (RVal v) s1 →
        signalWorkflow a s = Ok [promise_catch (Fulfilled v) failWorkflow] s1)
     ∧ (name = "__proto__" →
        signalWorkflow a s
        = Ok [promise_catch
                (Rejected (VErr (MkError TypeErrorC "fn is not a function" (nextObj s))))
                failWorkflow]
             (set_nextObj S s))).
Proof.
  intros Hw Hin.
  assert (Hne : name ≠ "").
  { intros ->. revert Hin. apply (proj1 (bool_decide_eq_false _)). vm_compute. reflexivity. }
  split.
  - intros a qs Hq Ht Hfn.
    assert (Hrun : queryWorkflow a s
                   = try_catch
                       (retOrPromise <- call_property (Inherited name)
                                          (arrayFromPayloads (query_arguments a)) ;;
                        match retOrPromise with
                        | RPromise p =>
                            ret [promise_catch (promise_then p completeQuery) failQuery]
                        | RVal v => _ <- completeQuery v ;; ret []
                        end)
                       (fun err => _ <- failQuery err ;; ret []) s).
    { unfold queryWorkflow. unfold bind at 1, gets. rewrite Hw, Hq, Ht.
      destruct name; [congruence |].
      unfold get_property. rewrite Hfn, (bool_decide_eq_true_2 _ Hin). reflexivity. }
    rewrite Hrun. split.
    + intros v s1 Hproto Hcall. unfold try_catch, bind, call_property.
      rewrite (bool_decide_eq_false_2 _ Hproto), Hcall.
      eexists. split; [reflexivity |]. split; reflexivity.
    + intros ->. eexists. split; [reflexivity |]. split; reflexivity.
  - intros a sg Hsg Hn Hfn Hinb.
    assert (Hrun : signalWorkflow a s
                   = (p <- async_property (Inherited name)
                             (arrayFromPayloads (signal_input a)) ;;
                      ret [promise_catch p failWorkflow]) s).
    { unfold signalWorkflow. unfold bind at 1, gets. rewrite Hw, Hsg, Hn.
      destruct name; [congruence |].
      unfold get_property. rewrite Hfn, (bool_decide_eq_true_2 _ Hin).
      unfold bind at 1, gets. rewrite Hinb.
      unfold composeInterceptors, fold_right.
      unfold bind. cbn beta. rewrite Hw. reflexivity. }
    rewrite Hrun. split.
    + intros v s1 Hproto Hcall. unfold bind, async_property, call_property.
      rewrite (bool_decide_eq_false_2 _ Hproto), Hcall. reflexivity.
    + intros ->. reflexivity.
Qed.

End SignalsAndQueries.

Section Dispatching.
Context {host : Host}.

(** X26: [activate] on a workflow that has not completed.  What the handler
    throws is thrown by [activate], from the state the handler left and with
    the pending buffer not drained; when the handler returns, the result is
    [processed = true] with the external calls queued up to then, the handler's
    own included.  A [removeFromCache] job is among the throwing ones. *)
Theorem activate_running (fuel : nat) (bytes : list Z) (jobIndex : nat) (s : State)
    (activation : WFActivation) (job : WFActivationJob) (v : JobVariant) (i : WorkflowInfo) :
  decodeDelimited bytes = inr activation →
  act_jobs activation !! jobIndex = Some job →
  variant job = Some v →
  variant_set v = true →
  info s = Some i →
  completed s = false →
  let s0 := set_info
              (fmap (fun i => {| runId := runId i;
                                 isReplaying := default false (act_isReplaying activation) |}))
              (set_now (tsToMs (act_timestamp activation)) s) in
  (∀ e s2, dispatch fuel v s0 = Throw e s2 →
     activate fuel bytes jobIndex s = Throw e s2)
  ∧ (∀ spawned s2, dispatch fuel v s0 = Ok spawned s2 →
     activate fuel bytes jobIndex s
     = Ok ({| processed := true; pendingExternalCalls_of := pendingExternalCalls s2 |},
           spawned)
          (set_pendingExternalCalls (fun _ => []) s2))
  ∧ (∀ b, v = RemoveFromCacheJob b →
     activate fuel bytes jobIndex s
     = Throw (VErr (MkError IllegalStateErrorC
                      "removeFromCache activation job should not reach workflow"
                      (nextObj s)))
             (set_nextObj S s0)).
Proof.
  intros Hdec Hjob Hvar Hset Hinfo Hdone s0.
  assert (Hact : activate fuel bytes jobIndex s
                 = (spawned <- dispatch fuel v ;;
                    calls <- getAndResetPendingExternalCalls ;;
                    ret ({| processed := true; pendingExternalCalls_of := calls |}, spawned))
                     s0).
  { unfold activate. rewrite Hdec. run_engine.
    rewrite Hinfo, Hjob, Hvar, Hset. simpl. rewrite Hdone. reflexivity. }
  rewrite Hact. split; [| split].
  - intros e s2 Hd. apply bind_Throw, Hd.
  - intros spawned s2 Hd. rewrite (bind_Ok _ _ _ _ _ Hd).
    rewrite (bind_Ok _ _ _ _ _ (getAndResetPendingExternalCalls_eq s2)). reflexivity.
  - intros b ->. reflexivity.
Qed.

(** X27: [propagateCancellation(method)(reject, scope)] for a scope with a
    child set: the method is called on every member of the set in order, an
    error a child throws that is not the cancellation itself goes to [reject]
    and the iteration goes on, and at the end [reject] gets the cancellation
    (the entries behind a child being left in place while it is visited).
    With no member left in the set, [reject(err)] is all that happens. *)
Theorem propagateCancellation_spec (fuel : nat) (method : CancelMethod) (reject : Fn)
    (sc : nat) (err : Val) (s : State) (a : nat) (es : ScopeSet) :
  childScopes s !! sc = Some a →
  setHeap s !! a = Some es →
  (length es < fuel)%nat →
  (∀ j child st st',
     es !! j = Some (Some child) →
     drop j (heap_entries a st) = drop j es →
     visit (apply fuel) method reject err child st = Ok tt st' →
     drop (S j) (heap_entries a st') = drop (S j) es) →
  apply (S fuel) (FnPropagate method reject sc) [err] s
  = (visit_all (visit (apply fuel) method reject err) (set_members es) ;;
     _ <- apply fuel reject [err] ;;
     ret (RVal VUndefined)) s
  ∧ (set_members es = [] →
     apply (S fuel) (FnPropagate method reject sc) [err] s
     = (_ <- apply fuel reject [err] ;; ret (RVal VUndefined)) s)
  ∧ (∀ child st,
       visit (apply fuel) method reject err child st
       = match apply fuel (scope_method method child) [err] st with
         | Ok _ st' => Ok tt st'
         | Throw e st' =>
             if strict_eq e err then Ok tt st'
             else (_ <- apply fuel reject [e] ;; ret tt) st'
         | Diverge => Diverge
         end).
Proof.
  intros Ha Hes Hfuel Hframe.
  pose proof (propagateCancellation_visits fuel method reject sc err s a es
                Ha Hes Hfuel Hframe) as Hall.
  split; [exact Hall |]. split.
  - intros Hnil. rewrite Hall, Hnil. reflexivity.
  - intros child st. unfold visit, try_catch, bind.
    destruct (apply fuel (scope_method method child) [err] st) as [r st' | e st' |];
      [reflexivity | destruct (strict_eq e err); reflexivity | reflexivity].
Qed.

(** X28: the clock.  [Date.now()] throws [IllegalStateError] in a fresh
    engine; [activate] sets the clock from the activation before anything else,
    so that it is set even when [activate] then fails for want of workflow
    info. *)
Theorem clock_set_by_activate (fuel : nat) (bytes : list Z) (jobIndex : nat) (s : State)
    (activation : WFActivation) :
  decodeDelimited bytes = inr activation →
  info s = None →
  Date_now initial_state
  = Throw (VErr (MkError IllegalStateErrorC
                   "Tried to get Date before Workflow has been initialized" 0))
          (set_nextObj S initial_state)
  ∧ ∃ e s', activate fuel bytes jobIndex s = Throw e s'
            ∧ Date_now s' = Ok (tsToMs (act_timestamp activation)) s'.
Proof.
  intros Hdec Hinfo. split; [reflexivity |].
  eexists _, _. split.
  - unfold activate. rewrite Hdec. run_engine. rewrite Hinfo. reflexivity.
  - reflexivity.
Qed.

End Dispatching.

Section StartEdges.
Context `{host : Host}.

(** X29: [startWorkflow] on an engine that holds no workflow and has no
    inbound interceptor does not throw: the [IllegalStateError] of the
    [execute] body rejects its promise, and two microtasks later the chain has
    appended [failWorkflowExecution] with that error converted and set
    [completed]. *)
Theorem startWorkflow_without_workflow (a : IStartWorkflow) (s e1 e2 : State) :
  workflow s = None →
  inbound (interceptors s) = [] →
  let err := VErr (MkError IllegalStateErrorC "state.workflow is not defined" (nextObj s)) in
  startWorkflow a s = Ok [completion_chain (Rejected err)] (set_nextObj S s)
  ∧ ∃ p' s',
      drive [e1; e2] (completion_chain (Rejected err)) (set_nextObj S s) = Some (p', s')
      ∧ commands s' = commands e2 ++ [FailWorkflowExecution (errorToUserCodeFailure err)]
      ∧ completed s' = true.
Proof.
  intros Hw Hin err. split.
  - unfold startWorkflow. unfold bind at 1, gets. rewrite Hin.
    unfold composeInterceptors, fold_right, run_main, async_throw_new, new_error.
    unfold bind, gets, ret. rewrite Hw. reflexivity.
  - unfold completion_chain. simpl. eexists _, _.
    split; [reflexivity |]. split; reflexivity.
Qed.

End StartEdges.

(** * The further properties, run on the test host *)

Section MoreRuns.
#[local] Existing Instance test_host.

Lemma setTimeout_then_fireTimer_witness :
  last (scopeStack initial_state) = Some rootScope
  ∧ parseInt (pretty (nextSeq initial_state)) = Int (nextSeq initial_state)
  ∧ ∃ s1 s2,
      setTimeout (FnExt 2) (Int 100) [] initial_state = Ok (nextSeq initial_state) s1
      ∧ last (commands s1)
        = Some (StartTimer (pretty (nextSeq initial_state)) (msToTs (Int 100)))
      ∧ fireTimer 2 {| timerId_of := Some (pretty (nextSeq initial_state)) |} s1
        = (_ <- apply 1 (FnExt 2) [] ;; ret []) s2
      ∧ completions s2 = delete (nextSeq initial_state) (completions initial_state)
      ∧ commands s2 = commands s1.
Proof.
  split; [reflexivity |]. split; [reflexivity |].
  exact (setTimeout_then_fireTimer 1 (FnExt 2) (Int 100) [] initial_state rootScope
           eq_refl eq_refl).
Defined.

Lemma setTimeout_then_clearTimeout_witness :
  last (scopeStack initial_state) = Some rootScope
  ∧ parseInt (pretty (nextSeq initial_state)) = Int (nextSeq initial_state)
  ∧ Z.abs (nextSeq initial_state) ≤ 2 ^ 53
  ∧ ∃ s1 s2 e s3,
      setTimeout (FnExt 2) (Int 100) [] initial_state = Ok (nextSeq initial_state) s1
      ∧ clearTimeout (Int (nextSeq initial_state)) s1 = Ok tt s2
      ∧ completions s2 = delete (nextSeq initial_state) (completions initial_state)
      ∧ commands s2
        = commands initial_state
          ++ [StartTimer (pretty (nextSeq initial_state)) (msToTs (Int 100));
              CancelTimer (pretty (nextSeq initial_state))]
      ∧ nextSeq s2 = nextSeq initial_state + 2
      ∧ fireTimer 1 {| timerId_of := Some (pretty (nextSeq initial_state)) |} s2
        = Throw (VErr e) s3
      ∧ err_class e = ErrorC
      ∧ completions s3 = completions s2.
Proof.
  assert (Hsafe : Z.abs (nextSeq initial_state) ≤ 2 ^ 53) by (vm_compute; discriminate).
  split; [reflexivity |]. split; [reflexivity |]. split; [exact Hsafe |].
  exact (setTimeout_then_clearTimeout 1 (FnExt 2) (Int 100) [] initial_state rootScope
           eq_refl eq_refl Hsafe).
Defined.

Lemma setTimeout_twice_witness :
  last (scopeStack initial_state) = Some rootScope
  ∧ ∃ s1 s2,
      setTimeout (FnExt 0) (Int 10) [] initial_state = Ok 0 s1
      ∧ setTimeout (FnExt 2) (Int 20) [] s1 = Ok 1 s2
      ∧ commands s2 = [StartTimer "0" (MkTimestamp 0 10000000);
                       StartTimer "1" (MkTimestamp 0 20000000)].
Proof.
  split; [reflexivity |].
  destruct (setTimeout_twice (FnExt 0) (FnExt 2) (Int 10) (Int 20) [] [] initial_state
              rootScope eq_refl) as (s1 & s2 & H1 & H2 & _ & _ & _ & H3).
  exists s1, s2. split; [exact H1 |]. split; [exact H2 |]. exact H3.
Defined.

Lemma setTimeout_without_scope_witness :
  scopeStack (set_scopeStack (fun _ => []) initial_state) = []
  ∧ ∃ s',
      setTimeout (FnExt 0) (Int 10) [] (set_scopeStack (fun _ => []) initial_state)
      = Throw (VErr (MkError ErrorC "No scopes in stack" 0)) s'
      ∧ nextSeq s' = 1
      ∧ completions s' = ∅
      ∧ commands s' = [].
Proof.
  split; [reflexivity |].
  exact (setTimeout_without_scope (FnExt 0) (Int 10) []
           (set_scopeStack (fun _ => []) initial_state) eq_refl).
Defined.

Lemma activate_returns_drained_witness :
  activate 1 [1] 0 test_completed_state
  = Ok ({| processed := false;
           pendingExternalCalls_of := [MkExternalCall "logger" "info" [VStr "bye"] None] |},
        [])
       (set_pendingExternalCalls (fun _ => [])
          (set_info (fun _ => Some (MkInfo "run-1" true))
             (set_now 5000 test_completed_state)))
  ∧ pendingExternalCalls
      (set_pendingExternalCalls (fun _ => [])
         (set_info (fun _ => Some (MkInfo "run-1" true))
            (set_now 5000 test_completed_state))) = [].
Proof.
  split; [vm_compute; reflexivity |].
  refine (proj1 (activate_returns_drained 1 [1] 0 test_completed_state _ _ _ _)).
  vm_compute. reflexivity.
Defined.


Lemma hook_init_first_promise_cancellable_witness :
  last (scopeStack test_open_scope_state) = Some (test_child 1 0)
  ∧ (idx (test_child 1 0) ∉ associated test_open_scope_state)
  ∧ ∃ s1 s2,
      promiseHook HookInit 7 None test_open_scope_state = Ok tt s1
      ∧ promiseData s1 !! 7%nat
        = Some {| pd_scope := test_child 1 0; cancellable := true |}
      ∧ promiseHook HookInit 8 None s1 = Ok tt s2
      ∧ promiseData s2 !! 8%nat
        = Some {| pd_scope := test_child 1 0; cancellable := false |}.
Proof.
  assert (Hfresh : idx (test_child 1 0) ∉ associated test_open_scope_state).
  { simpl. apply not_elem_of_singleton. discriminate. }
  split; [reflexivity |]. split; [exact Hfresh |].
  destruct (hook_init_first_promise_cancellable 7 8 test_open_scope_state
              (test_child 1 0) eq_refl Hfresh)
    as (s1 & s2 & H1 & H2 & _ & H3 & H4 & _).
  exists s1, s2. auto.
Defined.

Lemma hook_init_inherits_scope_witness :
  last (scopeStack test_hook_state) = Some rootScope
  ∧ 6%nat ≠ 5%nat
  ∧ ∃ s',
      promiseHook HookInit 6 (Some 5%nat) test_hook_state = Ok tt s'
      ∧ (pd_scope <$> promiseData s' !! 6%nat) = Some (test_child 1 2).
Proof.
  split; [reflexivity |]. split; [discriminate |].
  destruct (hook_init_inherits_scope 6 5 test_hook_state rootScope eq_refl)
    as (s' & H1 & _ & H2 & _); [discriminate |].
  exists s'. split; [exact H1 |]. exact (proj2 H2).
Defined.

Lemma hook_resolve_removes_scope_witness :
  promiseData test_hook_state !! 5%nat
  = Some {| pd_scope := test_child 1 2; cancellable := true |}
  ∧ childScopes test_hook_state !! idx rootScope = Some 0%nat
  ∧ setHeap test_hook_state !! 0%nat
    = Some [Some (test_child 1 2); None; Some (test_child 3 1)]
  ∧ ∃ s',
      promiseHook HookResolve 5 None test_hook_state = Ok tt s'
      ∧ setHeap s' !! 0%nat = Some [None; None; Some (test_child 3 1)]
      ∧ childScopes s' !! idx rootScope = Some 0%nat.
Proof.
  split; [reflexivity |]. split; [reflexivity |]. split; [reflexivity |].
  destruct (hook_resolve_removes_scope 5 None test_hook_state
              {| pd_scope := test_child 1 2; cancellable := true |} rootScope 0%nat
              [Some (test_child 1 2); None; Some (test_child 3 1)]
              eq_refl eq_refl eq_refl eq_refl eq_refl)
    as (s' & H1 & H2 & _ & _ & H3 & _).
  exists s'. split; [exact H1 |]. split; [exact H2 |]. exact H3.
Defined.

Lemma scope_opened_then_resolved_witness :
  parent (test_child 1 0) = Some rootScope
  ∧ childScopes initial_state !! idx rootScope = None
  ∧ (idx (test_child 1 0) ∉ associated initial_state)
  ∧ ∃ s1 s2,
      (_ <- pushScope (test_child 1 0) ;; promiseHook HookInit 9 None ;; popScope)
        initial_state = Ok tt s1
      ∧ promiseHook HookResolve 9 None s1 = Ok tt s2
      ∧ childScopes s2 = childScopes initial_state
      ∧ scopeStack s2 = scopeStack initial_state.
Proof.
  assert (Hfresh : idx (test_child 1 0) ∉ associated initial_state).
  { simpl. apply not_elem_of_singleton. discriminate. }
  split; [reflexivity |]. split; [reflexivity |]. split; [exact Hfresh |].
  destruct (scope_opened_then_resolved 9 (test_child 1 0) rootScope initial_state
              eq_refl eq_refl Hfresh) as (s1 & s2 & H1 & _ & _ & _ & H2 & H3 & H4).
  exists s1, s2. auto.
Defined.

Lemma resolveExternalDependencies_settles_witness :
  lookup_completion (Int 1) test_activity_state
  = Some {| resolve := FnExt 2; reject := FnExt 0; scope := rootScope |}
  ∧ resolveExternalDependencies 1
      [{| dep_seq := Int 1; dep_result := VStr "ok"; dep_error := VStr "" |}]
      test_activity_state
    = (_ <- apply 1 (FnExt 2) [VStr "ok"] ;; resolveExternalDependencies 1 [])
        (delete_completion (Int 1) test_activity_state).
Proof.
  split; [reflexivity |].
  exact (proj1 (proj2 (resolveExternalDependencies_settles 1
                         {| dep_seq := Int 1; dep_result := VStr "ok"; dep_error := VStr "" |}
                         [] test_activity_state
                         {| resolve := FnExt 2; reject := FnExt 0; scope := rootScope |}
                         eq_refl)) eq_refl).
Defined.

Lemma async_dependency_round_trip_witness :
  last (scopeStack initial_state) = Some rootScope
  ∧ ∃ s1 s2,
      async_dependency_executor "logger" "flush" [VStr "x"] (FnExt 2) (FnExt 0) initial_state
      = Ok tt s1
      ∧ concludeActivation s1
        = Ok (ConclusionPending [MkExternalCall "logger" "flush" [VStr "x"] (Some 0)]) s2
      ∧ resolveExternalDependencies 1
          [{| dep_seq := Int 0; dep_result := VStr "done"; dep_error := VUndefined |}] s2
        = (_ <- apply 1 (FnExt 2) [VStr "done"] ;; ret tt) (set_completions (delete 0) s2).
Proof.
  split; [reflexivity |].
  destruct (async_dependency_round_trip 1 "logger" "flush" [VStr "x"] (FnExt 2) (FnExt 0)
              (VStr "done") VUndefined initial_state rootScope eq_refl)
    as (s1 & s2 & H1 & _ & H2 & _ & H3 & _).
  exists s1, s2. auto.
Defined.

Lemma signalWorkflow_rejects_witness :
  workflow test_running_state = Some test_workflow_async
  ∧ signals test_workflow_async = Some {[ "go" := 5%nat ]}
  ∧ ({[ "go" := 5%nat ]} : gmap string nat) !! "stop" = None
  ∧ ("stop" ∉ Object_prototype_names)
  ∧ ∃ e s',
      signalWorkflow {| signalName_of := Some "stop"; signal_input := None |}
        test_running_state
      = Throw (VErr e) s'
      ∧ err_class e = ErrorC
      ∧ err_message e = "Workflow did not register a signal named stop"
      ∧ commands s' = commands test_running_state.
Proof.
  assert (Hnin : "stop" ∉ Object_prototype_names).
  { apply (proj1 (bool_decide_eq_false _)). vm_compute. reflexivity. }
  split; [reflexivity |]. split; [reflexivity |]. split; [reflexivity |].
  split; [exact Hnin |].
  destruct (signalWorkflow_rejects
              {| signalName_of := Some "stop"; signal_input := None |} test_running_state
              (or_intror (ex_intro _ test_workflow_async
                 (conj eq_refl
                    (or_intror (ex_intro _ {[ "go" := 5%nat ]}
                       (conj eq_refl
                          (or_intror (or_intror (ex_intro _ "stop"
                             (conj eq_refl (conj eq_refl Hnin))))))))))))
    as (e & s' & H1 & H2 & H3 & _).
  exists e, s'. split; [exact H1 |]. split; [exact H2 |]. split; [| exact H3].
  vm_compute in H1. injection H1 as <- _. reflexivity.
Defined.

Lemma signalWorkflow_outcome_witness :
  workflow test_running_state = Some test_workflow_async
  ∧ "go" ≠ ""
  ∧ signalWorkflow {| signalName_of := Some "go"; signal_input := None |} test_running_state
    = Ok [promise_catch (Pending (fun s => Ok (Rejected (VStr "failed")) s)) failWorkflow]
         test_running_state
  ∧ ∃ s',
      drive ([initial_state] ++ [initial_state])
        (promise_catch (Pending (fun s => Ok (Rejected (VStr "failed")) s)) failWorkflow)
        test_running_state
      = Some (Fulfilled VUndefined, s')
      ∧ commands s'
        = commands initial_state
          ++ [FailWorkflowExecution (errorToUserCodeFailure (VStr "failed"))]
      ∧ completed s' = true.
Proof.
  split; [reflexivity |]. split; [discriminate |].
  assert (Hne : "go" ≠ "") by discriminate.
  pose proof (signalWorkflow_outcome
                {| signalName_of := Some "go"; signal_input := None |}
                test_running_state test_running_state test_workflow_async
                {[ "go" := 5%nat ]} "go" 5%nat
                (Pending (fun s => Ok (Rejected (VStr "failed")) s))
                eq_refl eq_refl eq_refl Hne eq_refl eq_refl) as (H1 & H2 & _).
  split; [exact H1 |].
  exact (H2 [initial_state] (VStr "failed") initial_state initial_state eq_refl).
Defined.

Lemma queryWorkflow_answers_failures_witness :
  workflow test_running_state = Some test_workflow_async
  ∧ ("unknown" ∉ Object_prototype_names)
  ∧ ∃ msg s',
      queryWorkflow {| queryType_of := Some "unknown"; query_arguments := None |}
        test_running_state = Ok [] s'
      ∧ commands s' = [RespondToQuery (FailedWithMessage (Some msg))]
      ∧ completed s' = false.
Proof.
  assert (Hnin : "unknown" ∉ Object_prototype_names).
  { apply (proj1 (bool_decide_eq_false _)). vm_compute. reflexivity. }
  split; [reflexivity |]. split; [exact Hnin |].
  destruct (queryWorkflow_answers_failures
              {| queryType_of := Some "unknown"; query_arguments := None |}
              test_running_state test_workflow_async eq_refl
              (or_intror (ex_intro _ {[ "later" := 4%nat; "status" := 6%nat ]}
                 (conj eq_refl
                    (or_intror (or_intror (ex_intro _ "unknown"
                       (conj eq_refl (conj eq_refl Hnin)))))))))
    as (msg & s' & H1 & H2 & H3 & _).
  exists msg, s'. auto.
Defined.

Lemma queryWorkflow_handler_outcomes_witness :
  workflow test_running_state = Some test_workflow_async
  ∧ "status" ≠ ""
  ∧ call_ext 6 (arrayFromPayloads None) test_running_state
    = Ok (RVal (VStr "value")) test_running_state
  ∧ ∃ s',
      queryWorkflow {| queryType_of := Some "status"; query_arguments := None |}
        test_running_state = Ok [] s'
      ∧ commands s' = [RespondToQuery (Succeeded (toPayload (VStr "value")))]
      ∧ completed s' = false.
Proof.
  split; [reflexivity |]. split; [discriminate |]. split; [reflexivity |].
  assert (Hne : "status" ≠ "") by discriminate.
  exact (proj1 (queryWorkflow_handler_outcomes
                  {| queryType_of := Some "status"; query_arguments := None |}
                  test_running_state test_running_state test_workflow_async
                  {[ "later" := 4%nat; "status" := 6%nat ]} "status" 6%nat
                  eq_refl eq_refl eq_refl Hne eq_refl) (VStr "value") eq_refl).
Defined.

Lemma queryWorkflow_promise_outcome_witness :
  workflow test_running_state = Some test_workflow_async
  ∧ "later" ≠ ""
  ∧ call_ext 4 (arrayFromPayloads None) test_running_state
    = Ok (RPromise (Pending (fun s => Ok (Fulfilled (VStr "done")) s))) test_running_state
  ∧ queryWorkflow {| queryType_of := Some "later"; query_arguments := None |}
      test_running_state
    = Ok [promise_catch
            (promise_then (Pending (fun s => Ok (Fulfilled (VStr "done")) s)) completeQuery)
            failQuery] test_running_state.
Proof.
  split; [reflexivity |]. split; [discriminate |]. split; [reflexivity |].
  assert (Hne : "later" ≠ "") by discriminate.
  exact (proj1 (queryWorkflow_promise_outcome
                  {| queryType_of := Some "later"; query_arguments := None |}
                  test_running_state test_running_state test_workflow_async
                  {[ "later" := 4%nat; "status" := 6%nat ]} "later" 4%nat
                  (Pending (fun s => Ok (Fulfilled (VStr "done")) s))
                  eq_refl eq_refl eq_refl Hne eq_refl eq_refl)).
Defined.

Lemma activate_running_witness :
  decodeDelimited [1] = inr test_activation
  ∧ info test_running_state = Some (MkInfo "run-2" false)
  ∧ completed test_running_state = false
  ∧ ∃ e s',
      activate 1 [1] 0 test_running_state = Throw (VErr e) s'
      ∧ err_message e = "No completion for taskSeq 0".
Proof.
  split; [reflexivity |]. split; [reflexivity |]. split; [reflexivity |].
  pose proof (proj1 (activate_running 1 [1] 0 test_running_state test_activation
                       {| variant := Some (FireTimerJob {| timerId_of := Some "0" |}) |}
                       (FireTimerJob {| timerId_of := Some "0" |}) (MkInfo "run-2" false)
                       eq_refl eq_refl eq_refl eq_refl eq_refl eq_refl)) as Hthrow.
  eexists _, _. split.
  - apply Hthrow. vm_compute. reflexivity.
  - reflexivity.
Defined.

Lemma propagateCancellation_spec_witness :
  childScopes test_tree_state !! 0%nat = Some 0%nat
  ∧ setHeap test_tree_state !! 0%nat
    = Some [Some (test_child 1 2); None; Some (test_child 3 1)]
  ∧ apply 5 (FnPropagate CompleteCancel (FnExt 2) 0) [VStr "cancel"] test_tree_state
    = (visit_all (visit (apply 4) CompleteCancel (FnExt 2) (VStr "cancel"))
         [test_child 1 2; test_child 3 1] ;;
       _ <- apply 4 (FnExt 2) [VStr "cancel"] ;;
       ret (RVal VUndefined)) test_tree_state.
Proof.
  split; [reflexivity |]. split; [reflexivity |].
  refine (proj1 (propagateCancellation_spec 4 CompleteCancel (FnExt 2) 0 (VStr "cancel")
                   test_tree_state 0 [Some (test_child 1 2); None; Some (test_child 3 1)]
                   eq_refl eq_refl _ _)).
  - simpl. lia.
  - intros j child st st' Hj Hdrop Hrun.
    destruct j as [| [| [| j]]]; simpl in Hj; try discriminate;
      injection Hj as <-; unfold visit, try_catch, bind in Hrun; simpl in Hrun;
      injection Hrun as <-; simpl in Hdrop |- *.
    + change (heap_entries 0 (set_commands _ st)) with (drop 0 (heap_entries 0 st)).
      rewrite Hdrop. reflexivity.
    + change (drop 3 (heap_entries 0 (set_commands _ st)))
        with (drop (2 + 1) (heap_entries 0 st)).
      rewrite <- drop_drop, Hdrop. reflexivity.
Defined.

Lemma clock_set_by_activate_witness :
  decodeDelimited [1] = inr test_activation
  ∧ info initial_state = None
  ∧ ∃ e s', activate 1 [1] 0 initial_state = Throw e s'
            ∧ Date_now s' = Ok 5000 s'.
Proof.
  split; [reflexivity |]. split; [reflexivity |].
  exact (proj2 (clock_set_by_activate 1 [1] 0 initial_state test_activation
                  eq_refl eq_refl)).
Defined.

Lemma startWorkflow_without_workflow_witness :
  workflow initial_state = None
  ∧ inbound (interceptors initial_state) = []
  ∧ ∃ p' s',
      drive [initial_state; test_running_state]
        (completion_chain
           (Rejected (VErr (MkError IllegalStateErrorC "state.workflow is not defined" 0))))
        (set_nextObj S initial_state) = Some (p', s')
      ∧ commands s'
        = [FailWorkflowExecution
             (errorToUserCodeFailure
                (VErr (MkError IllegalStateErrorC "state.workflow is not defined" 0)))]
      ∧ completed s' = true.
Proof.
  split; [reflexivity |]. split; [reflexivity |].
  exact (proj2 (startWorkflow_without_workflow
                  {| sw_headers := None; sw_arguments := None |}
                  initial_state initial_state test_running_state eq_refl eq_refl)).
Defined.

Lemma inherited_names_are_found_witness :
  workflow test_running_state = Some test_workflow_async
  ∧ ("toString" ∈ Object_prototype_names)
  ∧ (∃ s', queryWorkflow {| queryType_of := Some "toString"; query_arguments := None |}
             test_running_state = Ok [] s'
           ∧ commands s'
             = [RespondToQuery (Succeeded (toPayload (VStr "[object Undefined]")))])
  ∧ signalWorkflow {| signalName_of := Some "toString"; signal_input := None |}
      test_running_state
    = Ok [promise_catch (Fulfilled (VStr "[object Undefined]")) failWorkflow]
         test_running_state.
Proof.
  assert (Hin : "toString" ∈ Object_prototype_names).
  { apply (proj1 (bool_decide_eq_true _)). vm_compute. reflexivity. }
  assert (Hproto : "toString" ≠ "__proto__") by discriminate.
  pose proof (inherited_names_are_found test_running_state test_workflow_async "toString"
                eq_refl Hin) as [Hquery Hsignal].
  split; [reflexivity |]. split; [exact Hin |]. split.
  - destruct (proj1 (Hquery {| queryType_of := Some "toString"; query_arguments := None |}
                       {[ "later" := 4%nat; "status" := 6%nat ]} eq_refl eq_refl eq_refl)
                (VStr "[object Undefined]") test_running_state Hproto eq_refl)
      as (s' & H1 & H2 & _).
    exists s'. split; [exact H1 | exact H2].
  - exact (proj1 (Hsignal {| signalName_of := Some "toString"; signal_input := None |}
                    {[ "go" := 5%nat ]} eq_refl eq_refl eq_refl eq_refl)
             (VStr "[object Undefined]") test_running_state Hproto eq_refl).
Defined.

End MoreRuns.
